(** * The game of Pig (IS211_Assignment8.py): embedding and properties

    The Python program is embedded as executable Rocq functions over an
    explicit world: the object store holding the two player objects, the
    state of the global [random] module, the lines waiting on standard
    input, the lines printed so far and the wall clock.  The two
    [while True] loops are embedded as a loop body returning "continue" or
    "break", iterated under a fuel bound. *)

From Stdlib Require Import ZArith QArith Qround Qabs Lqa String Ascii List Lia.
From stdpp Require Import base list strings pretty.

Local Open Scope string_scope.
Local Open Scope Z_scope.

(** ** Python strings

    The strings the program writes itself (its literals, the names, the
    lines it prints) are built from ASCII and are modelled by [string].
    The strings that come from outside (a player type, a line typed at the
    prompt) are arbitrary: they are modelled by [pystr], the list of their
    code points.  A literal used as such a string is read through
    [of_string]. *)

Definition pystr := list N.

Definition of_string (s : string) : pystr :=
  map N_of_ascii (list_ascii_of_string s).
Coercion of_string : string >-> pystr.

(** [==] on two strings. *)
Fixpoint pystr_eqb (a b : pystr) : bool :=
  match a, b with
  | [], [] => true
  | x :: a', y :: b' => N.eqb x y && pystr_eqb a' b'
  | _, _ => false
  end.

(** [str.isspace] on one code point, which is what [str.strip] removes:
    tab to carriage return, the separators 28 to 31, the space, NEL, the
    no-break space, U+1680, U+2000 to U+200A, the line and paragraph
    separators, U+202F, U+205F and U+3000. *)
Definition py_isspace (c : N) : bool :=
  ((9 <=? c) && (c <=? 13) || (28 <=? c) && (c <=? 32) || (c =? 133)
   || (c =? 160) || (c =? 5760) || (8192 <=? c) && (c <=? 8202)
   || (c =? 8232) || (c =? 8233) || (c =? 8239) || (c =? 8287)
   || (c =? 12288))%N.

Fixpoint lstrip (s : pystr) : pystr :=
  match s with
  | [] => []
  | c :: s' => if py_isspace c then lstrip s' else s
  end.

Fixpoint rstrip (s : pystr) : pystr :=
  match s with
  | [] => []
  | c :: s' =>
      match rstrip s' with
      | [] => if py_isspace c then [] else [c]
      | r => c :: r
      end
  end.

Definition strip (s : pystr) : pystr := rstrip (lstrip s).

(** [str.lower].  On a string of ASCII it is the capitals A to Z put in
    lower case.  On any other string it goes by the case tables of
    Unicode, which are not part of the program: they are the parameter
    [unicode_lower]. *)
Definition is_ascii (s : pystr) : bool := forallb (fun c => c <? 128)%N s.

Definition ascii_lower (c : N) : N :=
  if ((65 <=? c) && (c <=? 90))%N then (c + 32)%N else c.

Class UnicodeLower := unicode_lower : pystr -> pystr.

Definition lower {U : UnicodeLower} (s : pystr) : pystr :=
  if is_ascii s then map ascii_lower s else unicode_lower s.

(** [str(n)] for an integer. *)
Definition str (n : Z) : string := pretty n.

(** A string made of whitespace only. *)
Definition all_space (s : pystr) : bool := forallb py_isspace s.

(** ** The world *)

(** The class of a player object: [Player] or its subclass
    [ComputerPlayer]. *)
Inductive PlayerClass := ClsPlayer | ClsComputerPlayer.

Record Player := mkPlayer { cls : PlayerClass; name : string; score : Z }.

Definition isinstance_ComputerPlayer (p : Player) : bool :=
  match cls p with ClsComputerPlayer => true | ClsPlayer => false end.

(** References to player objects are indices into the store. *)
Abbreviation ref := nat (only parsing).

Inductive exn :=
| ValueError (msg : string)
| IndexError
| EOFError
| SystemExit (code : Z)
| UnicodeDecodeError
| KeyboardInterrupt
| DanglingRef.  (* model only: a reference outside the store *)

(** What standard input holds for one call of [input()]: a line of text,
    or what makes the call raise (a line that cannot be decoded, an
    interrupt). *)
Inductive stdin_item := Line (s : pystr) | Fails (e : exn).

Record World := mkWorld {
  heap : list Player;        (* the player objects *)
  seeded : Z -> nat -> Z;    (* the generator: after random.seed(s), what
                                random.randint(1, 6) returns, call by call *)
  rng_seq : nat -> Z;        (* the sequence the generator is on now *)
  rng_pos : nat;             (* calls of randint made on this sequence *)
  stdin : list stdin_item;   (* what the coming calls of input() meet *)
  stdout : list string;      (* what print() and the prompts wrote, oldest first *)
  clock : nat -> Q;          (* what time.time() returns, call by call *)
  clock_pos : nat            (* calls of time.time() made so far *)
}.

Inductive result (A : Type) :=
| Ok (a : A) (w : World)
| Raise (e : exn) (w : World)
| OutOfFuel.
Arguments Ok {A} a w.
Arguments Raise {A} e w.
Arguments OutOfFuel {A}.

Definition M (A : Type) := World -> result A.

Definition ret {A} (a : A) : M A := fun w => Ok a w.

Definition bind {A B} (m : M A) (k : A -> M B) : M B :=
  fun w => match m w with
           | Ok a w' => k a w'
           | Raise e w' => Raise e w'
           | OutOfFuel => OutOfFuel
           end.

Definition raise {A} (e : exn) : M A := fun w => Raise e w.

Notation "x <- m ;; k" := (bind m (fun x => k))
  (at level 100, m at next level, right associativity).
Notation "m ;;; k" := (bind m (fun _ => k))
  (at level 100, right associativity).

Definition set_heap (h : list Player) (w : World) : World :=
  mkWorld h (seeded w) (rng_seq w) (rng_pos w) (stdin w) (stdout w) (clock w) (clock_pos w).
Definition set_rng (sq : nat -> Z) (p : nat) (w : World) : World :=
  mkWorld (heap w) (seeded w) sq p (stdin w) (stdout w) (clock w) (clock_pos w).
Definition set_stdin (i : list stdin_item) (w : World) : World :=
  mkWorld (heap w) (seeded w) (rng_seq w) (rng_pos w) i (stdout w) (clock w) (clock_pos w).
Definition set_stdout (o : list string) (w : World) : World :=
  mkWorld (heap w) (seeded w) (rng_seq w) (rng_pos w) (stdin w) o (clock w) (clock_pos w).
Definition set_clock_pos (p : nat) (w : World) : World :=
  mkWorld (heap w) (seeded w) (rng_seq w) (rng_pos w) (stdin w) (stdout w) (clock w) p.

(** [print(line)]. *)
Definition print (line : string) : M unit :=
  fun w => Ok tt (set_stdout (stdout w ++ [line]) w).

(** [input(prompt)]: the prompt is written, one line is read; at the end
    of the input [EOFError] is raised, and a line that cannot be read
    raises its own exception. *)
Definition input (prompt : string) : M pystr :=
  fun w =>
    let w1 := set_stdout (stdout w ++ [prompt]) w in
    match stdin w with
    | [] => Raise EOFError w1
    | Line line :: rest => Ok line (set_stdin rest w1)
    | Fails e :: rest => Raise e (set_stdin rest w1)
    end.

(** [random.seed(s)]. *)
Definition random_seed (s : Z) : M unit :=
  fun w => Ok tt (set_rng (seeded w s) 0 w).

(** [random.randint(1, 6)]. *)
Definition random_randint_1_6 : M Z :=
  fun w => Ok (rng_seq w (rng_pos w)) (set_rng (rng_seq w) (S (rng_pos w)) w).

(** [time.time()]. *)
Definition time_time : M Q :=
  fun w => Ok (clock w (clock_pos w)) (set_clock_pos (S (clock_pos w)) w).

(** Creating an object puts it at a fresh reference. *)
Definition new_object (p : Player) : M ref :=
  fun w => Ok (length (heap w)) (set_heap (heap w ++ [p]) w).

Definition get_object (r : ref) : M Player :=
  fun w => match heap w !! r with
           | Some p => Ok p w
           | None => Raise DanglingRef w
           end.

Definition put_object (r : ref) (p : Player) : M unit :=
  fun w => Ok tt (set_heap (<[r := p]> (heap w)) w).

(** ** class Player, class ComputerPlayer *)

Definition Player_init (c : PlayerClass) (name : string) : M ref :=
  new_object (mkPlayer c name 0).

Definition add_to_score (self : ref) (points : Z) : M unit :=
  p <- get_object self ;;
  put_object self (mkPlayer (cls p) (name p) (score p + points)).

Definition reset_score (self : ref) : M unit :=
  p <- get_object self ;;
  put_object self (mkPlayer (cls p) (name p) 0).

Module ComputerPlayer.

(** What [decide] computes from the turn total and [self.score]. *)
Definition decide (turn_total : Z) (self_score : Z) : string :=
  if turn_total >=? Z.min 25 (100 - self_score) then "h" else "r".

(** The method: it reads the score of its object. *)
Definition decide_method (self : ref) (turn_total : Z) : M string :=
  p <- get_object self ;;
  ret (decide turn_total (score p)).

End ComputerPlayer.

(** Case tables that leave every string that is not of ASCII as it is. *)
Definition plain_tables : UnicodeLower := fun s => s.

Section Program.

(** The case tables of the interpreter. *)
Context {U : UnicodeLower}.

(** ** class PlayerFactory *)

Definition invalid_player_type : string :=
  "Invalid player type. Choose 'human' or 'computer'.".

Definition create_player (player_type : pystr) (name : string) : M ref :=
  if pystr_eqb (lower player_type) "computer" then
    Player_init ClsComputerPlayer name
  else if pystr_eqb (lower player_type) "human" then
    Player_init ClsPlayer name
  else raise (ValueError invalid_player_type).

(** ** class Die *)

Inductive Die := mkDie.

(** [Die.__init__(self, seed=0)]: the default applies when no seed is
    passed. *)
Definition Die_init (seed : option Z) : M Die :=
  random_seed (match seed with Some s => s | None => 0 end) ;;;
  ret mkDie.

Definition Die_roll (self : Die) : M Z := random_randint_1_6.

(** ** class Game *)

Record Game := mkGame {
  players : list ref;
  die : Die;
  current_player_index : Z
}.

Definition Game_init (player1_type player2_type : pystr) : M Game :=
  p1 <- create_player player1_type "Player 1" ;;
  p2 <- create_player player2_type "Player 2" ;;
  d <- Die_init None ;;
  ret (mkGame [p1; p2] d 0).

Definition switch_turn (self : Game) : Game :=
  mkGame (players self) (die self) (1 - current_player_index self).

(** [l[i]] on a Python list: negative indices count from the end. *)
Definition getitem {A} (l : list A) (i : Z) : M A :=
  let n := Z.of_nat (length l) in
  match (if 0 <=? i then l !! Z.to_nat i
         else if - n <=? i then l !! Z.to_nat (n + i) else None) with
  | Some a => ret a
  | None => raise IndexError
  end.

Definition turn_line (p : Player) : string :=
  String "010" (name p) +:+ "'s turn!".
Definition rolled_line (p : Player) (roll : Z) : string :=
  name p +:+ " rolled a " +:+ str roll +:+ ".".
Definition bust_line : string := "Rolled a 1! No points earned this turn.".
Definition total_line (turn_total : Z) (p : Player) : string :=
  "Turn total: " +:+ str turn_total +:+ ", Current score: " +:+ str (score p).
Definition chooses_line (p : Player) (decision : string) : string :=
  name p +:+ " chooses to " +:+
  (if String.eqb decision "h" then "Hold" else "Roll") +:+ ".".
Definition prompt : string := "Roll again (r) or Hold (h)? ".

(** The decision of a human player on one line of input. *)
Definition human_decision (line : pystr) : pystr := lower (strip line).

(** One pass through the body of the [while True] of [play_turn], entered
    with [turn_total]: [None] is [break], [Some t] goes round again with
    the turn total [t]. *)
Definition play_turn_body (self : Game) (player : ref) (turn_total : Z)
  : M (option Z) :=
  roll <- Die_roll (die self) ;;
  p <- get_object player ;;
  print (rolled_line p roll) ;;;
  if roll =? 1 then
    print bust_line ;;;
    ret None
  else
    let turn_total := turn_total + roll in
    print (total_line turn_total p) ;;;
    decision <-
      (if isinstance_ComputerPlayer p then
         decision <- ComputerPlayer.decide_method player turn_total ;;
         print (chooses_line p decision) ;;;
         ret (of_string decision)
       else
         line <- input prompt ;;
         ret (human_decision line)) ;;
    if pystr_eqb decision "h" then
      add_to_score player turn_total ;;;
      ret None
    else ret (Some turn_total).

Fixpoint play_turn_loop (fuel : nat) (self : Game) (player : ref)
  (turn_total : Z) : M unit :=
  match fuel with
  | O => fun _ => OutOfFuel
  | S fuel' =>
      r <- play_turn_body self player turn_total ;;
      match r with
      | None => ret tt
      | Some turn_total' => play_turn_loop fuel' self player turn_total'
      end
  end.

Definition play_turn (fuel : nat) (self : Game) (player : ref) : M unit :=
  p <- get_object player ;;
  print (turn_line p) ;;;
  play_turn_loop fuel self player 0.

Definition wins_line (p : Player) : string :=
  String "010" (name p) +:+ " wins with " +:+ str (score p) +:+ " points!".

Fixpoint check_winner_loop (ps : list ref) : M bool :=
  match ps with
  | [] => ret false
  | player :: rest =>
      p <- get_object player ;;
      if score p >=? 100 then
        print (wins_line p) ;;;
        ret true
      else check_winner_loop rest
  end.

Definition check_winner (self : Game) : M bool :=
  check_winner_loop (players self).

(** One pass through the body of the [while True] of [Game.start]:
    [None] is [break], [Some g] goes round again with the game as
    [switch_turn] left it. *)
Definition start_body (fuel : nat) (self : Game) : M (option Game) :=
  current_player <- getitem (players self) (current_player_index self) ;;
  play_turn fuel self current_player ;;;
  won <- check_winner self ;;
  if won then ret None
  else ret (Some (switch_turn self)).

(** The loop returns the game object as it stands at the [break]. *)
Fixpoint start_loop (fuel : nat) (self : Game) : M Game :=
  match fuel with
  | O => fun _ => OutOfFuel
  | S fuel' =>
      r <- start_body fuel' self ;;
      match r with
      | None => ret self
      | Some self' => start_loop fuel' self'
      end
  end.

Definition welcome_line : string := "Welcome to Pig!".

Definition Game_start (fuel : nat) (self : Game) : M Game :=
  print welcome_line ;;;
  start_loop fuel self.

(** ** class TimedGameProxy(Game)

    The readings of [time.time()] are rationals (every float is one).
    Their difference is a float again: the exact difference rounded to
    the nearest number with 53 significant bits, the even one of two that
    are as near ([fl]; exponents are not bounded, readings of a clock are
    far from either end of the range). *)

(** 2^e, for [e] of either sign. *)
Definition pow2 (e : Z) : Q :=
  if 0 <=? e then inject_Z (2 ^ e) else / inject_Z (2 ^ (- e)).

(** The integer nearest to [q], the even one of two that are as near. *)
Definition round_half_even (q : Q) : Z :=
  let f := Qfloor q in
  match Qcompare (q - inject_Z f) (1 # 2) with
  | Lt => f
  | Gt => f + 1
  | Eq => if Z.even f then f else f + 1
  end.

(** The binary exponent of [a > 0]: the floor of its logarithm. *)
Definition ilog2 (a : Q) : Z :=
  if Qle_bool 1 a then Z.log2 (Qfloor a)
  else - Z.log2_up (Qceiling (/ a)).

Definition fl (q : Q) : Q :=
  if Qeq_bool q 0 then 0%Q
  else
    let a := Qabs q in
    let u := pow2 (ilog2 a - 52) in
    let m := (inject_Z (round_half_even (a / u)) * u)%Q in
    if Qle_bool 0 q then m else (- m)%Q.

Record TimedGameProxy := mkTimed {
  base : Game;
  start_time : Q
}.

Definition TimedGameProxy_init (player1_type player2_type : pystr)
  : M TimedGameProxy :=
  g <- Game_init player1_type player2_type ;;
  t <- time_time ;;
  ret (mkTimed g t).

Definition timed_welcome_line : string :=
  "Welcome to Timed Pig! You have 1 minute to win.".
Definition timeup_wins_line (p : Player) : string :=
  String "010" "Time's up! " +:+ name p +:+ " wins with " +:+ str (score p)
  +:+ " points!".
Definition timeup_tie_line : string :=
  String "010" "Time's up! It's a tie!".

Definition declare_winner (self : TimedGameProxy) : M unit :=
  match players (base self) with
  | [player1; player2] =>
      p1 <- get_object player1 ;;
      p2 <- get_object player2 ;;
      if score p1 >? score p2 then print (timeup_wins_line p1)
      else if score p2 >? score p1 then print (timeup_wins_line p2)
      else print timeup_tie_line
  | _ => raise (ValueError "unpack")
  end.

(** The test [time.time() - self.start_time >= 60]. *)
Definition time_is_up (now start : Q) : bool :=
  Qle_bool 60 (fl (now - start)).

(** One pass through the body of the [while True] of
    [TimedGameProxy.start]. *)
Definition timed_start_body (fuel : nat) (self : TimedGameProxy)
  : M (option TimedGameProxy) :=
  now <- time_time ;;
  if time_is_up now (start_time self) then
    declare_winner self ;;;
    ret None
  else
    current_player <-
      getitem (players (base self)) (current_player_index (base self)) ;;
    play_turn fuel (base self) current_player ;;;
    won <- check_winner (base self) ;;
    if won then ret None
    else ret (Some (mkTimed (switch_turn (base self)) (start_time self))).

Fixpoint timed_start_loop (fuel : nat) (self : TimedGameProxy)
  : M TimedGameProxy :=
  match fuel with
  | O => fun _ => OutOfFuel
  | S fuel' =>
      r <- timed_start_body fuel' self ;;
      match r with
      | None => ret self
      | Some self' => timed_start_loop fuel' self'
      end
  end.

Definition TimedGameProxy_start (fuel : nat) (self : TimedGameProxy)
  : M TimedGameProxy :=
  print timed_welcome_line ;;;
  timed_start_loop fuel self.

(** ** The script

    The script from the values [argparse] has read for [--player1],
    [--player2] and [--timed]: a value outside [choices] ends the process
    with status 2.  What [argparse] does with a command line that gives it
    no such values (an option missing or unknown, [--help]) is not
    modelled. *)

Definition in_choices (s : pystr) : bool :=
  pystr_eqb s "human" || pystr_eqb s "computer".

Definition main (fuel : nat) (player1 player2 : pystr) (timed : bool)
  : M unit :=
  if negb (in_choices player1 && in_choices player2) then raise (SystemExit 2)
  else if timed then
    game <- TimedGameProxy_init player1 player2 ;;
    TimedGameProxy_start fuel game ;;;
    ret tt
  else
    game <- Game_init player1 player2 ;;
    Game_start fuel game ;;;
    ret tt.

(** ** Worlds to run the program on *)

(** Lines typed in ASCII. *)
Definition typed (lines : list string) : list pystr := map of_string lines.

(** A generator whose sequence, whatever the seed, repeats the given
    faces for ever. *)
Definition cycle (faces : list Z) : Z -> nat -> Z :=
  fun _ i => nth (i mod length faces)%nat faces 1.

Definition world0 (faces : list Z) (lines : list pystr) (times : nat -> Q)
  : World :=
  mkWorld [] (cycle faces) (fun _ => 1) 0 (map Line lines) [] times 0.

Definition scores (w : World) : list Z := map score (heap w).

Definition run_result {A} (r : result A) : option World :=
  match r with Ok _ w => Some w | Raise _ w => Some w | OutOfFuel => None end.

(** The faces drawn by [n] calls of randint from call number [from]. *)
Definition rolls (sq : nat -> Z) (from n : nat) : list Z :=
  map sq (seq from n).

Definition sum_of (l : list Z) : Z := fold_right Z.add 0 l.

(** The loop heads of one turn: [turn_steps self player n t w t' w'] when
    [n] passes through the body, each answering "go round again", lead
    from the turn total [t] in world [w] to [t'] in [w']. *)
Inductive turn_steps (self : Game) (player : ref)
  : nat -> Z -> World -> Z -> World -> Prop :=
| turn_steps_O t w : turn_steps self player 0 t w t w
| turn_steps_S n t w t1 w1 t2 w2 :
    turn_steps self player n t w t1 w1 ->
    play_turn_body self player t1 w1 = Ok (Some t2) w2 ->
    turn_steps self player (S n) t w t2 w2.

(** The world in which the loop of [play_turn] is entered. *)
Definition turn_entry (p : Player) (w : World) : World :=
  set_stdout (stdout w ++ [turn_line p]) w.

(** [mid_turn self player w n t' w']: the turn of [player] begun in [w]
    stands, after [n] rolls, at the head of its loop with the turn total
    [t'] in the world [w']. *)
Definition mid_turn (self : Game) (player : ref) (w : World)
  (n : nat) (t' : Z) (w' : World) : Prop :=
  exists p, heap w !! player = Some p /\
            turn_steps self player n 0 (turn_entry p w) t' w'.

(** The world after a roll has been drawn and announced. *)
Definition rolled_world (p : Player) (w : World) : World :=
  let w1 := set_rng (rng_seq w) (S (rng_pos w)) w in
  set_stdout (stdout w1 ++ [rolled_line p (rng_seq w (rng_pos w))]) w1.

Definition bust_world (p : Player) (w : World) : World :=
  let w1 := rolled_world p w in
  set_stdout (stdout w1 ++ [bust_line]) w1.

Definition with_score (p : Player) (s : Z) : Player :=
  mkPlayer (cls p) (name p) s.

(** The pass entered with [t1] in [w1] ends the turn by a hold: the roll
    is not 1 and the decision, the computer's or the one typed, is 'h'. *)
Definition hold_decided (p : Player) (t1 : Z) (w1 : World) : Prop :=
  let roll := rng_seq w1 (rng_pos w1) in
  roll <> 1 /\
  if isinstance_ComputerPlayer p then ComputerPlayer.decide (t1 + roll) (score p) = "h"
  else exists line rest,
      stdin w1 = Line line :: rest /\ human_decision line = "h".

(** Every face the generator is about to give is one of a die. *)
Definition faces_ok (w : World) : Prop :=
  forall i, 1 <= rng_seq w i <= 6.

(** The game has two players, two different objects of the store. *)
Definition wf_game (g : Game) (w : World) : Prop :=
  exists r1 r2 p1 p2,
    players g = [r1; r2] /\ r1 <> r2 /\
    heap w !! r1 = Some p1 /\ heap w !! r2 = Some p2.

(** A game on the table: a human first, the computer second, with the
    scores [s1] and [s2]; the die gives [faces] over and over, [lines] are
    typed and the clock stands still. *)
Definition demo_game : Game := mkGame [0%nat; 1%nat] mkDie 0.

Definition demo_world (faces : list Z) (lines : list pystr) (s1 s2 : Z)
  : World :=
  mkWorld [mkPlayer ClsPlayer "Player 1" s1;
           mkPlayer ClsComputerPlayer "Player 2" s2]
    (cycle faces) (cycle faces 0) 0 (map Line lines) [] (fun _ => 0%Q) 0.

(** The heads of the loop of [Game.start]: [start_steps n g w g' w'] when
    [n] turns, none of them won, lead from the game [g] in world [w] to
    [g'] in [w']. *)
Inductive start_steps : nat -> Game -> World -> Game -> World -> Prop :=
| start_steps_O g w : start_steps 0 g w g w
| start_steps_S n g w g1 w1 fuel g2 w2 :
    start_steps n g w g1 w1 ->
    start_body fuel g1 w1 = Ok (Some g2) w2 ->
    start_steps (S n) g w g2 w2.

(** Some player of the game has 100 points or more; none has. *)
Definition has_winner (g : Game) (w : World) : Prop :=
  exists r p, In r (players g) /\ heap w !! r = Some p /\ 100 <= score p.

Definition no_winner (g : Game) (w : World) : Prop :=
  forall r p, In r (players g) -> heap w !! r = Some p -> score p < 100.

(** The player on turn. *)
Definition active_player (g : Game) : option ref :=
  players g !! Z.to_nat (current_player_index g).

(** A player type that the factory knows, in whatever case. *)
Definition valid_type (player_type : pystr) : Prop :=
  lower player_type = "human" \/ lower player_type = "computer".

(** The object the factory builds for such a type. *)
Definition made_player (player_type : pystr) (name : string) : Player :=
  mkPlayer (if pystr_eqb (lower player_type) "computer"
            then ClsComputerPlayer else ClsPlayer) name 0.

(** ** Two runs of the script *)

(** How a run ended and what it showed: the lines printed, the faces
    drawn since the generator was last seeded, the scores. *)
Inductive ending := Returned | Raised (e : exn) | Unfinished.

Definition outcome {A} (r : result A)
  : ending * list string * list Z * list Z :=
  match r with
  | Ok _ w => (Returned, stdout w, rolls (rng_seq w) 0 (rng_pos w), scores w)
  | Raise e w =>
      (Raised e, stdout w, rolls (rng_seq w) 0 (rng_pos w), scores w)
  | OutOfFuel => (Unfinished, [], [], [])
  end.

(** The world of a process that has just started. *)
Definition fresh (w : World) : Prop :=
  heap w = [] /\ rng_pos w = 0%nat /\ stdout w = [] /\ clock_pos w = 0%nat.

(** Two runs on the same interpreter that are typed the same lines; the
    state the generator wakes up in and the clock are each run's own. *)
Definition same_inputs (w1 w2 : World) : Prop :=
  fresh w1 /\ fresh w2 /\ stdin w1 = stdin w2 /\ seeded w1 = seeded w2.

(** All of a world but its clock. *)
Definition view (w : World) :=
  (heap w, seeded w, rng_seq w, rng_pos w, stdin w, stdout w).

Definition weq (w1 w2 : World) : Prop := view w1 = view w2.

Definition req {A} (r1 r2 : result A) : Prop :=
  match r1, r2 with
  | Ok a w, Ok b w' => a = b /\ weq w w'
  | Raise e w, Raise e' w' => e = e' /\ weq w w'
  | OutOfFuel, OutOfFuel => True
  | _, _ => False
  end.

(** A computation that does not look at the clock. *)
Definition clock_free {A} (m : M A) : Prop :=
  forall w1 w2, weq w1 w2 -> req (m w1) (m w2).

(** A clock that passes the minute between the first and the second head
    of the timed loop. *)
Definition slow_clock : nat -> Q :=
  fun i => if (i <=? 1)%nat then 0%Q else 61%Q.

(** The same world with the clock standing at [t]. *)
Definition at_time (t : Q) (w : World) : World :=
  mkWorld (heap w) (seeded w) (rng_seq w) (rng_pos w) (stdin w) (stdout w)
    (fun _ => t) (clock_pos w).

(** Two computers at the table, at 0 to 0, under the clock [times]. *)
Definition robots_world (faces : list Z) (times : nat -> Q) : World :=
  mkWorld [mkPlayer ClsComputerPlayer "Player 1" 0;
           mkPlayer ClsComputerPlayer "Player 2" 0]
    (cycle faces) (cycle faces 0) 0 [] [] times 0.

(** What a turn and the win check leave untouched: the generator and its
    sequence, the clock and the number of objects. *)
Record frame (w w' : World) : Prop := mkFrame {
  frame_seeded : seeded w' = seeded w;
  frame_rng_seq : rng_seq w' = rng_seq w;
  frame_clock : clock w' = clock w;
  frame_clock_pos : clock_pos w' = clock_pos w;
  frame_length : length (heap w') = length (heap w)
}.

(** The players of the game are in [w'] the objects they were in [w], by
    name and by class. *)
Definition same_players (g : Game) (w w' : World) : Prop :=
  forall r p,
    In r (players g) -> heap w !! r = Some p ->
    exists p', heap w' !! r = Some p' /\ name p' = name p /\ cls p' = cls p.

(** No player of the game has a lower score in [w'] than in [w]. *)
Definition scores_grow (g : Game) (w w' : World) : Prop :=
  forall r p p',
    In r (players g) -> heap w !! r = Some p -> heap w' !! r = Some p' ->
    score p <= score p'.

(** One of the players of the game is a human. *)
Definition some_human (g : Game) (w : World) : Prop :=
  exists r p,
    In r (players g) /\ heap w !! r = Some p /\
    isinstance_ComputerPlayer p = false.

(** From [w] to [w'] lines of the input have been read, and nothing
    else of it. *)
Definition lines_read (w w' : World) : Prop :=
  exists ls, stdin w = (map Line ls ++ stdin w')%list.

(** From [w] to [w'] lines of the input have been read and then a call of
    [input()] has raised [e]: on what stood next in the input, or, as
    [EOFError], at its end. *)
Definition input_raised (e : exn) (w w' : World) : Prop :=
  exists ls,
    stdin w = (map Line ls ++ Fails e :: stdin w')%list \/
    (e = EOFError /\ stdin w = map Line ls /\ stdin w' = []).

(** The clock of [w] stays short of the minute after [start], from the
    next reading on. *)
Definition never_up (start : Q) (w : World) : Prop :=
  forall i, (clock_pos w <= i)%nat -> time_is_up (clock w i) start = false.

(** The results of the timed loop and of the plain loop agree: the same
    ending, the same game below the proxy, the same world but for the
    clock. *)
Definition timed_agrees (r1 : result TimedGameProxy) (r2 : result Game)
  : Prop :=
  match r1, r2 with
  | Ok tg w, Ok g w' => base tg = g /\ weq w w'
  | Raise e w, Raise e' w' => e = e' /\ weq w w'
  | OutOfFuel, OutOfFuel => True
  | _, _ => False
  end.

(** ** Tactics *)

(** Unfolding the monad and the primitives. *)
Ltac run_m :=
  unfold Die_roll, random_randint_1_6, ComputerPlayer.decide_method, add_to_score,
    get_object, put_object, print, input, time_time, bind, ret, raise in *;
  simpl in *.

(** Projections of updated worlds. *)
Ltac wsimpl :=
  cbn [heap seeded rng_seq rng_pos stdin stdout clock clock_pos
       set_heap set_rng set_stdin set_stdout set_clock_pos] in *.

(** Two worlds that agree on all but the clock, field by field. *)
Ltac weq_worlds :=
  let H := fresh "H" in
  intros [] [] H; unfold weq, view in H; simpl in H; injection H as;
  subst; unfold weq, view; simpl.

Ltac weq_done := simpl; repeat split; try exact eq_refl.

(** * Properties *)

(** ** Strings *)

Lemma pystr_eqb_spec a b : reflect (a = b) (pystr_eqb a b).
Proof.
  revert b. induction a as [|x a IH]; intros [|y b]; simpl;
    try (constructor; congruence).
  destruct (N.eqb_spec x y) as [->|Hne]; simpl.
  - destruct (IH b) as [->|Hne]; constructor; congruence.
  - constructor. congruence.
Qed.

Lemma pystr_eqb_eq a b : pystr_eqb a b = true -> a = b.
Proof. destruct (pystr_eqb_spec a b); [auto|discriminate]. Qed.

Lemma map_N_of_ascii_inj l l' :
  map N_of_ascii l = map N_of_ascii l' -> l = l'.
Proof.
  revert l'. induction l as [|x l IH]; intros [|y l']; simpl; intros H;
    try discriminate H; [reflexivity|].
  injection H as Hx Hl. f_equal; [|auto].
  rewrite <- (ascii_N_embedding x), <- (ascii_N_embedding y), Hx. reflexivity.
Qed.

Lemma of_string_inj a b : of_string a = of_string b -> a = b.
Proof.
  unfold of_string. intros H. apply map_N_of_ascii_inj in H.
  rewrite <- (string_of_list_ascii_of_string a),
          <- (string_of_list_ascii_of_string b), H.
  reflexivity.
Qed.

Lemma pystr_eqb_of_string a b :
  pystr_eqb (of_string a) (of_string b) = String.eqb a b.
Proof.
  destruct (String.eqb_spec a b) as [->|Hne].
  - destruct (pystr_eqb_spec (of_string b) (of_string b)); congruence.
  - destruct (pystr_eqb_spec (of_string a) (of_string b)) as [He|]; [|reflexivity].
    destruct Hne. apply of_string_inj, He.
Qed.

(** ** One pass through the loop of [play_turn] *)

Lemma body_bust self player t w p :
  heap w !! player = Some p ->
  rng_seq w (rng_pos w) = 1 ->
  play_turn_body self player t w = Ok None (bust_world p w).
Proof.
  intros Hp Hroll. unfold play_turn_body. run_m. rewrite Hp. simpl.
  rewrite Hroll. simpl. unfold bust_world, rolled_world. rewrite Hroll.
  reflexivity.
Qed.

Lemma frame_refl w : frame w w.
Proof. split; reflexivity. Qed.

Lemma frame_trans w1 w2 w3 : frame w1 w2 -> frame w2 w3 -> frame w1 w3.
Proof. intros [] []. split; congruence. Qed.

(** The pass, case by case. *)
Lemma body_eq self player t w p :
  heap w !! player = Some p ->
  play_turn_body self player t w =
    let roll := rng_seq w (rng_pos w) in
    let w1 := rolled_world p w in
    if roll =? 1 then Ok None (bust_world p w)
    else
      let t' := t + roll in
      let w2 := set_stdout (stdout w1 ++ [total_line t' p]) w1 in
      let held := with_score p (score p + t') in
      if isinstance_ComputerPlayer p then
        let d := ComputerPlayer.decide t' (score p) in
        let w3 := set_stdout (stdout w2 ++ [chooses_line p d]) w2 in
        if String.eqb d "h"
        then Ok None (set_heap (<[player := held]> (heap w3)) w3)
        else Ok (Some t') w3
      else
        let w3 := set_stdout (stdout w2 ++ [prompt]) w2 in
        match stdin w with
        | [] => Raise EOFError w3
        | Fails e :: rest => Raise e (set_stdin rest w3)
        | Line line :: rest =>
            let w4 := set_stdin rest w3 in
            if pystr_eqb (human_decision line) "h"
            then Ok None (set_heap (<[player := held]> (heap w4)) w4)
            else Ok (Some t') w4
        end.
Proof.
  intros Hp. unfold play_turn_body. run_m. rewrite Hp. simpl.
  destruct (rng_seq w (rng_pos w) =? 1); [reflexivity|].
  destruct (isinstance_ComputerPlayer p); simpl.
  - rewrite Hp. simpl. rewrite pystr_eqb_of_string.
    destruct (String.eqb _ "h"); simpl; [|reflexivity].
    rewrite Hp. reflexivity.
  - destruct (stdin w) as [|[line|e] rest]; [reflexivity| |reflexivity]. simpl.
    destruct (pystr_eqb _ "h"); simpl; [|reflexivity].
    rewrite Hp. reflexivity.
Qed.

(** What a pass that ends normally has done. *)
Lemma body_inv self player t w p r w' :
  heap w !! player = Some p ->
  play_turn_body self player t w = Ok r w' ->
  let roll := rng_seq w (rng_pos w) in
  frame w w' /\ rng_pos w' = S (rng_pos w) /\
  match r with
  | Some t' => roll <> 1 /\ t' = t + roll /\ heap w' = heap w
  | None =>
      (roll = 1 /\ heap w' = heap w) \/
      (roll <> 1 /\
       heap w' = <[player := with_score p (score p + (t + roll))]> (heap w))
  end.
Proof.
  intros Hp H. rewrite (body_eq _ _ _ _ _ Hp) in H. cbv zeta in H.
  destruct (Z.eqb_spec (rng_seq w (rng_pos w)) 1) as [E1|E1].
  - injection H as <- <-. repeat split; wsimpl; auto.
  - destruct (isinstance_ComputerPlayer p).
    + destruct (String.eqb _ "h"); injection H as <- <-;
        repeat split; wsimpl; auto using length_insert.
    + destruct (stdin w) as [|[line|e] rest]; try discriminate.
      destruct (pystr_eqb _ "h"); injection H as <- <-;
        repeat split; wsimpl; auto using length_insert.
Qed.

(** A pass that raises leaves the store alone. *)
Lemma body_raise self player t w p e w' :
  heap w !! player = Some p ->
  play_turn_body self player t w = Raise e w' ->
  frame w w' /\ heap w' = heap w.
Proof.
  intros Hp H. rewrite (body_eq _ _ _ _ _ Hp) in H. cbv zeta in H.
  destruct (_ =? 1); [discriminate|].
  destruct (isinstance_ComputerPlayer p).
  - destruct (String.eqb _ "h"); discriminate.
  - destruct (stdin w) as [|[line|e0] rest];
      [|destruct (pystr_eqb _ "h"); discriminate|];
      injection H as <- <-; repeat split; reflexivity.
Qed.




(** ** The loop of [play_turn] *)

Lemma rolls_S sq from n :
  rolls sq from (S n) = (rolls sq from n ++ [sq (from + n)%nat])%list.
Proof. unfold rolls. rewrite seq_S, map_app. reflexivity. Qed.

Lemma sum_of_app l1 l2 : sum_of (l1 ++ l2)%list = sum_of l1 + sum_of l2.
Proof. induction l1 as [|x l1 IH]; simpl; [reflexivity|]. rewrite IH. lia. Qed.

Lemma sum_of_snoc l x : sum_of (l ++ [x])%list = sum_of l + x.
Proof. rewrite sum_of_app. simpl. lia. Qed.

Lemma turn_steps_inv self player n t w t' w' p :
  heap w !! player = Some p ->
  turn_steps self player n t w t' w' ->
  frame w w' /\ heap w' = heap w /\
  rng_pos w' = (rng_pos w + n)%nat /\
  t' = t + sum_of (rolls (rng_seq w) (rng_pos w) n) /\
  Forall (fun r => r <> 1) (rolls (rng_seq w) (rng_pos w) n).
Proof.
  intros Hp H. induction H as [t w|n t w t1 w1 t2 w2 H IH Hbody].
  - repeat split; auto using frame_refl. simpl. lia.
  - destruct (IH Hp) as (Hf & Hh & Hpos & Ht & Hall).
    assert (Hp1 : heap w1 !! player = Some p) by (rewrite Hh; exact Hp).
    destruct (body_inv _ _ _ _ _ _ _ Hp1 Hbody) as (Hf' & Hpos' & Hne & Ht2 & Hh2).
    rewrite (frame_rng_seq _ _ Hf), Hpos in Hne, Ht2.
    split; [eauto using frame_trans|].
    split; [congruence|].
    split; [lia|].
    rewrite rolls_S, sum_of_snoc. split; [lia|].
    apply Forall_app. split; [exact Hall|]. constructor; [exact Hne|constructor].
Qed.

Lemma turn_steps_cons self player n t w t1 w1 t2 w2 :
  play_turn_body self player t w = Ok (Some t1) w1 ->
  turn_steps self player n t1 w1 t2 w2 ->
  turn_steps self player (S n) t w t2 w2.
Proof.
  intros Hbody H. induction H.
  - eapply turn_steps_S; [apply turn_steps_O|exact Hbody].
  - eapply turn_steps_S; eauto.
Qed.

(** Fuel spent on passes that go round again. *)
Lemma loop_steps self player n t w t1 w1 fuel :
  turn_steps self player n t w t1 w1 ->
  play_turn_loop (n + fuel) self player t w =
  play_turn_loop fuel self player t1 w1.
Proof.
  intros H. revert fuel. induction H as [|n t w t1 w1 t2 w2 H IH Hbody]; intros fuel.
  - reflexivity.
  - replace (S n + fuel)%nat with (n + S fuel)%nat by lia.
    rewrite IH. simpl. unfold bind at 1. rewrite Hbody. reflexivity.
Qed.

(** A loop that ends went round some [n] times and then broke out. *)
Lemma loop_inv fuel self player : forall t w (r : result unit),
  play_turn_loop fuel self player t w = r -> r <> OutOfFuel ->
  exists n t1 w1,
    (n < fuel)%nat /\ turn_steps self player n t w t1 w1 /\
    match r with
    | Ok _ w' => play_turn_body self player t1 w1 = Ok None w'
    | Raise e w' => play_turn_body self player t1 w1 = Raise e w'
    | OutOfFuel => False
    end.
Proof.
  induction fuel as [|fuel IH]; intros t w r H Hr.
  - simpl in H. congruence.
  - simpl in H. unfold bind at 1 in H.
    destruct (play_turn_body self player t w) as [[t1|] w1|e w1|] eqn:Hbody.
    + destruct (IH _ _ _ H Hr) as (n & t2 & w2 & Hn & Hsteps & Hend).
      exists (S n), t2, w2. split; [lia|].
      split; [eapply turn_steps_cons; eauto|exact Hend].
    + exists 0%nat, t, w. subst r. split; [lia|]. split; [constructor|exact Hbody].
    + exists 0%nat, t, w. subst r. split; [lia|]. split; [constructor|exact Hbody].
    + congruence.
Qed.

Lemma play_turn_eq fuel self player w p :
  heap w !! player = Some p ->
  play_turn fuel self player w =
  play_turn_loop fuel self player 0 (turn_entry p w).
Proof. intros Hp. unfold play_turn. run_m. rewrite Hp. reflexivity. Qed.

Lemma mid_turn_inv self player w n t1 w1 p :
  heap w !! player = Some p ->
  mid_turn self player w n t1 w1 ->
  turn_steps self player n 0 (turn_entry p w) t1 w1 /\
  frame w w1 /\ heap w1 = heap w /\
  rng_pos w1 = (rng_pos w + n)%nat /\
  t1 = sum_of (rolls (rng_seq w) (rng_pos w) n) /\
  Forall (fun r => r <> 1) (rolls (rng_seq w) (rng_pos w) n).
Proof.
  intros Hp (p' & Hp' & Hsteps).
  assert (p' = p) by congruence. subst p'.
  split; [exact Hsteps|].
  assert (Hpe : heap (turn_entry p w) !! player = Some p) by exact Hp.
  destruct (turn_steps_inv _ _ _ _ _ _ _ _ Hpe Hsteps) as (Hf & Hh & Hpos & Ht & Hall).
  destruct Hf. repeat split; auto.
Qed.

(** ** The computer's strategy *)

(** C1: [ComputerPlayer.decide] answers 'h' (hold) exactly when the turn
    total has reached [min(25, 100 - score)] and 'r' (roll) otherwise; the
    method reads the score of its object and changes nothing;
    decide(20, 85) holds and decide(10, 50) rolls. *)
Theorem computer_decide_threshold :
  forall turn_total self_score : Z,
    (ComputerPlayer.decide turn_total self_score = "h"
       <-> turn_total >= Z.min 25 (100 - self_score)) /\
    (ComputerPlayer.decide turn_total self_score = "r"
       <-> turn_total < Z.min 25 (100 - self_score)) /\
    (forall self w p,
        heap w !! self = Some p ->
        ComputerPlayer.decide_method self turn_total w
        = Ok (ComputerPlayer.decide turn_total (score p)) w) /\
    ComputerPlayer.decide 20 85 = "h" /\ ComputerPlayer.decide 10 50 = "r".
Proof.
  intros turn_total self_score. unfold ComputerPlayer.decide.
  destruct (Z.geb_spec turn_total (Z.min 25 (100 - self_score))) as [Hge|Hlt].
  - split; [split; [lia|reflexivity]|].
    split; [split; [discriminate|lia]|].
    split; [|split; reflexivity].
    intros self w p Hp. run_m. rewrite Hp. reflexivity.
  - split; [split; [discriminate|lia]|].
    split; [split; [lia|reflexivity]|].
    split; [|split; reflexivity].
    intros self w p Hp. run_m. rewrite Hp. reflexivity.
Qed.

(** ** One turn *)

(** C2: when a roll of the turn comes up 1, the turn ends at that roll:
    [play_turn] returns having drawn no further roll and asked for no
    further input, the turn total is dropped, and the store, so the score
    of the player, is what it was when the turn began. *)
Theorem rolling_one_ends_turn :
  forall self player w p n t1 w1,
    heap w !! player = Some p ->
    mid_turn self player w n t1 w1 ->
    rng_seq w (rng_pos w + n)%nat = 1 ->
    forall fuel, (n < fuel)%nat ->
    exists w',
      play_turn fuel self player w = Ok tt w' /\
      heap w' = heap w /\
      heap w' !! player = Some p /\
      rng_pos w' = (rng_pos w + S n)%nat /\
      stdin w' = stdin w1 /\
      stdout w' = (stdout w1 ++ [rolled_line p 1; bust_line])%list.
Proof.
  intros self player w p n t1 w1 Hp Hmid Hone fuel Hfuel.
  destruct (mid_turn_inv _ _ _ _ _ _ _ Hp Hmid)
    as (Hsteps & Hf & Hh & Hpos & _ & _).
  assert (Hp1 : heap w1 !! player = Some p) by (rewrite Hh; exact Hp).
  assert (Hone1 : rng_seq w1 (rng_pos w1) = 1)
    by (rewrite (frame_rng_seq _ _ Hf), Hpos; exact Hone).
  exists (bust_world p w1).
  rewrite (play_turn_eq _ _ _ _ _ Hp).
  replace fuel with (n + S (fuel - S n))%nat by lia.
  rewrite (loop_steps _ _ _ _ _ _ _ _ Hsteps). simpl.
  unfold bind at 1. rewrite (body_bust _ _ _ _ _ Hp1 Hone1).
  unfold bust_world, rolled_world. wsimpl. rewrite Hone1.
  repeat split; auto; try congruence; try lia.
  rewrite <- app_assoc. reflexivity.
Qed.

Lemma play_turn_inv fuel self player w p (r : result unit) :
  heap w !! player = Some p ->
  play_turn fuel self player w = r -> r <> OutOfFuel ->
  exists n t1 w1,
    (n < fuel)%nat /\ mid_turn self player w n t1 w1 /\
    heap w1 !! player = Some p /\
    match r with
    | Ok _ w' => play_turn_body self player t1 w1 = Ok None w'
    | Raise e w' => play_turn_body self player t1 w1 = Raise e w'
    | OutOfFuel => False
    end.
Proof.
  intros Hp H Hr. rewrite (play_turn_eq _ _ _ _ _ Hp) in H.
  destruct (loop_inv _ _ _ _ _ _ H Hr) as (n & t1 & w1 & Hn & Hsteps & Hend).
  assert (Hmid : mid_turn self player w n t1 w1) by (exists p; auto).
  exists n, t1, w1. repeat split; auto.
  destruct (mid_turn_inv _ _ _ _ _ _ _ Hp Hmid) as (_ & _ & Hh & _).
  rewrite Hh. exact Hp.
Qed.

(** A turn that returns ended on a 1 or on a hold. *)
Lemma play_turn_ok fuel self player w p w' :
  heap w !! player = Some p ->
  play_turn fuel self player w = Ok tt w' ->
  exists k,
    frame w w' /\ rng_pos w' = (rng_pos w + S k)%nat /\
    Forall (fun r => r <> 1) (rolls (rng_seq w) (rng_pos w) k) /\
    let last := rng_seq w (rng_pos w + k)%nat in
    (last = 1 /\ heap w' = heap w) \/
    (last <> 1 /\
     heap w' = <[player := with_score p
                   (score p + sum_of (rolls (rng_seq w) (rng_pos w) (S k)))]>
                 (heap w)).
Proof.
  intros Hp H.
  destruct (play_turn_inv _ _ _ _ _ _ Hp H) as (n & t1 & w1 & _ & Hmid & Hp1 & Hend);
    [discriminate|].
  destruct (mid_turn_inv _ _ _ _ _ _ _ Hp Hmid) as (_ & Hf & Hh & Hpos & Ht & Hall).
  destruct (body_inv _ _ _ _ _ _ _ Hp1 Hend) as (Hf' & Hpos' & Hcase).
  cbv zeta in Hcase. rewrite (frame_rng_seq _ _ Hf), Hpos, Hh in Hcase.
  exists n. split; [eauto using frame_trans|]. split; [lia|].
  split; [exact Hall|]. cbv zeta.
  destruct Hcase as [[H1 Hh']|[H1 Hh']]; [left|right]; split; auto.
  rewrite Hh', rolls_S, sum_of_snoc, <- Ht. reflexivity.
Qed.

(** A hold that is decided ends the turn, whatever fuel is left. *)
Lemma hold_ends_turn self player w p n t1 w1 fuel :
  heap w !! player = Some p ->
  mid_turn self player w n t1 w1 ->
  hold_decided p t1 w1 ->
  (n < fuel)%nat ->
  exists w',
    play_turn fuel self player w = Ok tt w' /\
    heap w' = <[player := with_score p
                  (score p + sum_of (rolls (rng_seq w) (rng_pos w) (S n)))]>
                (heap w).
Proof.
  intros Hp Hmid [Hne Hdec] Hfuel.
  destruct (mid_turn_inv _ _ _ _ _ _ _ Hp Hmid) as (Hsteps & Hf & Hh & Hpos & Ht & _).
  assert (Hp1 : heap w1 !! player = Some p) by (rewrite Hh; exact Hp).
  rewrite rolls_S, sum_of_snoc, <- Ht, <- (frame_rng_seq _ _ Hf), <- Hpos, <- Hh.
  rewrite (play_turn_eq _ _ _ _ _ Hp).
  replace fuel with (n + S (fuel - S n))%nat by lia.
  rewrite (loop_steps _ _ _ _ _ _ _ _ Hsteps).
  cbn [play_turn_loop]. unfold bind at 1.
  rewrite (body_eq _ _ _ _ _ Hp1). cbv zeta.
  apply Z.eqb_neq in Hne. rewrite Hne.
  destruct (isinstance_ComputerPlayer p).
  - rewrite Hdec. simpl. eexists. split; reflexivity.
  - destruct Hdec as (line & rest & Hin & Hdec). rewrite Hin, Hdec. simpl.
    eexists. split; reflexivity.
Qed.


Lemma sum_of_rolls_nonneg sq from n :
  (forall i, 1 <= sq i <= 6) -> 0 <= sum_of (rolls sq from n).
Proof.
  intros Hsq. unfold rolls. generalize (seq from n). intros l.
  induction l as [|i l IH]; simpl; [lia|]. specialize (Hsq i). lia.
Qed.

(** What a turn, returning or raising, leaves of the store. *)
Lemma play_turn_heap fuel self player w p w' :
  heap w !! player = Some p ->
  run_result (play_turn fuel self player w) = Some w' ->
  frame w w' /\
  (heap w' = heap w \/
   exists k, heap w' = <[player := with_score p
                           (score p + sum_of (rolls (rng_seq w) (rng_pos w) k))]>
                         (heap w)).
Proof.
  intros Hp H.
  destruct (play_turn fuel self player w) as [[] w2|e w2|] eqn:Hrun;
    simpl in H; [| |discriminate]; injection H as ->.
  - destruct (play_turn_ok _ _ _ _ _ _ Hp Hrun) as (k & Hf & _ & _ & Hcase).
    split; [exact Hf|]. cbv zeta in Hcase.
    destruct Hcase as [[_ Hh]|[_ Hh]]; [left|right; exists (S k)]; exact Hh.
  - destruct (play_turn_inv _ _ _ _ _ _ Hp Hrun)
      as (n & t1 & w1 & _ & Hmid & Hp1 & Hend); [discriminate|].
    destruct (mid_turn_inv _ _ _ _ _ _ _ Hp Hmid) as (_ & Hf & Hh & _).
    destruct (body_raise _ _ _ _ _ _ _ Hp1 Hend) as (Hf' & Hh').
    split; [eauto using frame_trans|]. left. congruence.
Qed.

(** The store after a turn, object by object. *)
Lemma play_turn_objects fuel g w player p w' :
  heap w !! player = Some p ->
  run_result (play_turn fuel g player w) = Some w' ->
  (forall other, other <> player -> heap w' !! other = heap w !! other) /\
  (exists p',
      heap w' !! player = Some p' /\
      name p' = name p /\ cls p' = cls p /\
      exists k, score p' = score p + sum_of (rolls (rng_seq w) (rng_pos w) k)) /\
  (wf_game g w -> wf_game g w').
Proof.
  intros Hp Hrun.
  destruct (play_turn_heap _ _ _ _ _ _ Hp Hrun) as (_ & Hheap).
  assert (Hother : forall other, other <> player ->
                                 heap w' !! other = heap w !! other).
  { intros other Hne. destruct Hheap as [->|(k & ->)]; [reflexivity|].
    apply list_lookup_insert_ne. congruence. }
  assert (Hself : exists p',
             heap w' !! player = Some p' /\
             name p' = name p /\ cls p' = cls p /\
             exists k, score p' = score p + sum_of (rolls (rng_seq w) (rng_pos w) k)).
  { destruct Hheap as [->|(k & ->)].
    - exists p. repeat split; [exact Hp|]. exists 0%nat. simpl. lia.
    - eexists. split.
      + apply list_lookup_insert_eq. eapply lookup_lt_Some, Hp.
      + simpl. repeat split. exists k. reflexivity. }
  split; [exact Hother|]. split; [exact Hself|].
  intros (r1 & r2 & p1 & p2 & Hpl & Hne & H1 & H2).
  assert (Hvalid : forall r q, heap w !! r = Some q ->
                               exists q', heap w' !! r = Some q').
  { intros r q Hr. destruct (decide (r = player)) as [->|Hd].
    - destruct Hself as (p' & Hp' & _). eauto.
    - exists q. rewrite <- Hr. apply Hother. exact Hd. }
  destruct (Hvalid _ _ H1) as (q1 & Hq1).
  destruct (Hvalid _ _ H2) as (q2 & Hq2).
  exists r1, r2, q1, q2. auto.
Qed.

(** C10: a turn changes nothing of the store but the score of the player
    whose turn it is, and that score does not go down: every other object,
    so the other player's name and score, is as before, and so are the
    name and the class of the player on turn. *)
Theorem turn_changes_only_active_score :
  forall fuel g w player p w',
    wf_game g w ->
    heap w !! player = Some p ->
    faces_ok w ->
    run_result (play_turn fuel g player w) = Some w' ->
    (forall other, other <> player -> heap w' !! other = heap w !! other) /\
    (exists p',
        heap w' !! player = Some p' /\
        name p' = name p /\ cls p' = cls p /\ score p <= score p') /\
    wf_game g w'.
Proof.
  intros fuel g w player p w' Hwf Hp Hfaces Hrun.
  destruct (play_turn_objects _ _ _ _ _ _ Hp Hrun)
    as (Hother & (p' & Hp' & Hname & Hcls & k & Hscore) & Hwf').
  split; [exact Hother|]. split; [|auto].
  exists p'. repeat split; auto.
  pose proof (sum_of_rolls_nonneg (rng_seq w) (rng_pos w) k Hfaces). lia.
Qed.

(** ** The game loop *)

Lemma getitem_two (r1 r2 : ref) i w :
  i = 0 \/ i = 1 ->
  getitem [r1; r2] i w = Ok (if i =? 0 then r1 else r2) w.
Proof. intros [->| ->]; reflexivity. Qed.

Lemma check_winner_two g w r1 r2 p1 p2 :
  players g = [r1; r2] ->
  heap w !! r1 = Some p1 -> heap w !! r2 = Some p2 ->
  check_winner g w =
    if score p1 >=? 100 then Ok true (set_stdout (stdout w ++ [wins_line p1]) w)
    else if score p2 >=? 100
         then Ok true (set_stdout (stdout w ++ [wins_line p2]) w)
         else Ok false w.
Proof.
  intros Hpl H1 H2. unfold check_winner. rewrite Hpl. simpl. run_m.
  rewrite H1. destruct (score p1 >=? 100); [reflexivity|].
  rewrite H2. destruct (score p2 >=? 100); reflexivity.
Qed.

Lemma has_winner_two g w r1 r2 p1 p2 :
  players g = [r1; r2] ->
  heap w !! r1 = Some p1 -> heap w !! r2 = Some p2 ->
  has_winner g w <-> 100 <= score p1 \/ 100 <= score p2.
Proof.
  intros Hpl H1 H2. unfold has_winner. rewrite Hpl. split.
  - intros (r & p & [<-|[<-|[]]] & Hr & Hs); [left|right]; congruence.
  - intros [Hs|Hs]; [exists r1, p1|exists r2, p2]; simpl; auto.
Qed.

Lemma no_winner_two g w r1 r2 p1 p2 :
  players g = [r1; r2] ->
  heap w !! r1 = Some p1 -> heap w !! r2 = Some p2 ->
  no_winner g w <-> score p1 < 100 /\ score p2 < 100.
Proof.
  intros Hpl H1 H2. unfold no_winner. rewrite Hpl. split.
  - intros H. split; [apply (H r1)|apply (H r2)]; simpl; auto.
  - intros [Hs1 Hs2] r p [<-|[<-|[]]] Hr; congruence.
Qed.

(** The win check, as a whole. *)
Lemma check_winner_spec g w :
  wf_game g w ->
  exists b w',
    check_winner g w = Ok b w' /\ heap w' = heap w /\ frame w w' /\
    (b = true <-> has_winner g w) /\
    (b = false <-> no_winner g w) /\
    (b = false -> w' = w) /\
    (b = true ->
     exists r p, In r (players g) /\ heap w !! r = Some p /\ 100 <= score p /\
                 stdout w' = (stdout w ++ [wins_line p])%list).
Proof.
  intros (r1 & r2 & p1 & p2 & Hpl & Hne & H1 & H2).
  rewrite (check_winner_two _ _ _ _ _ _ Hpl H1 H2).
  pose proof (has_winner_two _ _ _ _ _ _ Hpl H1 H2) as Hhw.
  pose proof (no_winner_two _ _ _ _ _ _ Hpl H1 H2) as Hnw.
  destruct (Z.geb_spec (score p1) 100) as [Hs1|Hs1];
    [|destruct (Z.geb_spec (score p2) 100) as [Hs2|Hs2]];
    eexists _, _; (split; [reflexivity|]); (split; [reflexivity|]);
    (split; [split; reflexivity|]);
    (split; [rewrite Hhw; split; try discriminate; try lia; auto|]);
    (split; [rewrite Hnw; split; try discriminate; try lia; auto|]);
    (split; [try discriminate; auto|]); try discriminate; intros _.
  - exists r1, p1. rewrite Hpl. simpl. repeat split; auto; lia.
  - exists r2, p2. rewrite Hpl. simpl. repeat split; auto; lia.
Qed.

Lemma wf_game_players g w g' :
  players g' = players g -> wf_game g w -> wf_game g' w.
Proof. intros Hpl (r1 & r2 & p1 & p2 & H). exists r1, r2, p1, p2. rewrite Hpl. exact H. Qed.

Lemma wf_active g w :
  wf_game g w ->
  current_player_index g = 0 \/ current_player_index g = 1 ->
  exists active pa,
    active_player g = Some active /\ heap w !! active = Some pa /\
    getitem (players g) (current_player_index g) w = Ok active w.
Proof.
  intros (r1 & r2 & p1 & p2 & Hpl & Hne & H1 & H2) Hidx.
  unfold active_player. rewrite Hpl, (getitem_two _ _ _ _ Hidx).
  destruct Hidx as [-> | ->]; simpl; eauto.
Qed.

(** One pass through the loop of [Game.start]: the turn of the player
    whose index is current, then the win check. *)
Lemma start_body_inv fuel g w r w' :
  wf_game g w ->
  current_player_index g = 0 \/ current_player_index g = 1 ->
  start_body fuel g w = Ok r w' ->
  exists active pa w1 b,
    active_player g = Some active /\ heap w !! active = Some pa /\
    play_turn fuel g active w = Ok tt w1 /\
    wf_game g w1 /\
    check_winner g w1 = Ok b w' /\
    r = (if b then None else Some (switch_turn g)).
Proof.
  intros Hwf Hidx H.
  destruct (wf_active _ _ Hwf Hidx) as (active & pa & Hact & Hpa & Hget).
  unfold start_body in H. unfold bind at 1 in H. rewrite Hget in H.
  unfold bind at 1 in H.
  destruct (play_turn fuel g active w) as [[] w1|e w1|] eqn:Hturn; try discriminate.
  assert (Hwf1 : wf_game g w1).
  { eapply play_turn_objects; eauto. rewrite Hturn. reflexivity. }
  unfold bind at 1 in H.
  destruct (check_winner g w1) as [b w2|e w2|] eqn:Hcheck; try discriminate.
  exists active, pa, w1, b.
  destruct b; injection H as <- <-; auto 10.
Qed.

Lemma has_winner_heap g w w' :
  heap w' = heap w -> has_winner g w -> has_winner g w'.
Proof. intros Hh (r & p & H). exists r, p. rewrite Hh. exact H. Qed.

Lemma no_winner_heap g w w' :
  heap w' = heap w -> no_winner g w -> no_winner g w'.
Proof. intros Hh H r p. rewrite Hh. apply H. Qed.

Lemma winner_excluded g w : has_winner g w -> no_winner g w -> False.
Proof. intros (r & p & Hin & Hr & Hs) H. specialize (H r p Hin Hr). lia. Qed.

Lemma wf_game_heap g w w' : heap w' = heap w -> wf_game g w -> wf_game g w'.
Proof.
  intros Hh (r1 & r2 & p1 & p2 & H). exists r1, r2, p1, p2. rewrite Hh. exact H.
Qed.

(** What the pass answers, from the scores it leaves. *)
Lemma start_body_answer fuel g w r w' :
  wf_game g w ->
  current_player_index g = 0 \/ current_player_index g = 1 ->
  start_body fuel g w = Ok r w' ->
  wf_game g w' /\
  ((r = None /\ has_winner g w' /\
    exists rr p, In rr (players g) /\ heap w' !! rr = Some p /\
                 100 <= score p /\ last (stdout w') = Some (wins_line p)) \/
   (r = Some (switch_turn g) /\ no_winner g w')).
Proof.
  intros Hwf Hidx H.
  destruct (start_body_inv _ _ _ _ _ Hwf Hidx H)
    as (active & pa & w1 & b & _ & _ & _ & Hwf1 & Hcheck & ->).
  destruct (check_winner_spec _ _ Hwf1)
    as (b' & w2 & Hcheck' & Hh & _ & Hwin & Hnone & Hsame & Hline).
  rewrite Hcheck in Hcheck'. injection Hcheck' as <- <-.
  split; [exact (wf_game_heap _ _ _ Hh Hwf1)|].
  destruct b.
  - left. split; [reflexivity|].
    split; [apply (has_winner_heap _ _ _ Hh), Hwin; reflexivity|].
    destruct (Hline eq_refl) as (rr & p & Hin & Hr & Hs & Hout).
    exists rr, p. rewrite Hh, Hout, last_snoc. auto.
  - right. split; [reflexivity|].
    apply (no_winner_heap _ _ _ Hh), Hnone. reflexivity.
Qed.

(** The heads of the loop: the game keeps its two players, the index is 0
    or 1, and after a first turn nobody stands at 100. *)
Lemma start_steps_inv n g w g' w' :
  wf_game g w ->
  current_player_index g = 0 \/ current_player_index g = 1 ->
  start_steps n g w g' w' ->
  wf_game g' w' /\ players g' = players g /\
  current_player_index g' = (current_player_index g + Z.of_nat n) mod 2 /\
  ((0 < n)%nat \/ no_winner g w -> no_winner g' w').
Proof.
  intros Hwf Hidx H. induction H as [g w|n g w g1 w1 fuel g2 w2 H IH Hbody].
  - split; [exact Hwf|]. split; [reflexivity|].
    split; [rewrite Z.add_0_r; destruct Hidx as [-> | ->]; reflexivity|].
    intros [Hn|Hnw]; [lia|exact Hnw].
  - destruct (IH Hwf Hidx) as (Hwf1 & Hpl & Hi & _).
    assert (Hidx1 : current_player_index g1 = 0 \/ current_player_index g1 = 1).
    { rewrite Hi. pose proof (Z.mod_pos_bound (current_player_index g + Z.of_nat n) 2).
      lia. }
    destruct (start_body_answer _ _ _ _ _ Hwf1 Hidx1 Hbody)
      as (Hwf2 & [(Hr & _)|(Hr & Hnw)]); [discriminate|].
    injection Hr as ->.
    split; [exact (wf_game_players _ _ _ eq_refl Hwf2)|].
    split; [exact Hpl|].
    split.
    + simpl. rewrite Hi, Nat2Z.inj_succ.
      rewrite <- Z.add_1_r, Z.add_assoc.
      set (m := current_player_index g + Z.of_nat n).
      pose proof (Z.mod_pos_bound m 2).
      rewrite <- (Zplus_mod_idemp_l m 1 2).
      assert (Hm : m mod 2 = 0 \/ m mod 2 = 1) by lia.
      destruct Hm as [-> | ->]; reflexivity.
    + intros _. exact Hnw.
Qed.

(** C5: the win check answers true exactly when some player has 100
    points or more, and then announces that player; a pass through the
    loop of [Game.start] breaks out exactly when the turn has left such a
    player, the loop returns there with the announcement as its last line,
    and otherwise goes round again; no head of the loop past the first
    turn is entered with a player at 100. *)
Theorem winner_declared_at_100 :
  forall g w,
    wf_game g w ->
    current_player_index g = 0 \/ current_player_index g = 1 ->
    (exists b w',
        check_winner g w = Ok b w' /\ heap w' = heap w /\
        (b = true <-> has_winner g w) /\
        (b = true ->
         exists r p, In r (players g) /\ heap w !! r = Some p /\
                     100 <= score p /\
                     stdout w' = (stdout w ++ [wins_line p])%list)) /\
    (forall fuel r w',
        start_body fuel g w = Ok r w' ->
        (r = None <-> has_winner g w') /\
        (r = None ->
         start_loop (S fuel) g w = Ok g w' /\
         exists rr p, In rr (players g) /\ heap w' !! rr = Some p /\
                      100 <= score p /\
                      last (stdout w') = Some (wins_line p)) /\
        (forall g', r = Some g' ->
                    no_winner g w' /\
                    start_loop (S fuel) g w = start_loop fuel g' w')) /\
    (forall n g' w',
        start_steps n g w g' w' ->
        (0 < n)%nat \/ no_winner g w ->
        no_winner g' w').
Proof.
  intros g w Hwf Hidx. split; [|split].
  - destruct (check_winner_spec _ _ Hwf)
      as (b & w' & Hcheck & Hh & _ & Hwin & _ & _ & Hline).
    exists b, w'. auto.
  - intros fuel r w' Hbody.
    destruct (start_body_answer _ _ _ _ _ Hwf Hidx Hbody)
      as (Hwf' & [(-> & Hwin & Hline)|(-> & Hnw)]).
    + split; [split; auto|]. split.
      * intros _. split; [|exact Hline].
        simpl. unfold bind at 1. rewrite Hbody. reflexivity.
      * intros g' Hg'. discriminate.
    + split; [split; [discriminate|]|].
      * intros Hwin. destruct (winner_excluded _ _ Hwin Hnw).
      * split; [discriminate|]. intros g' Hg'. injection Hg' as <-.
        split; [exact Hnw|].
        simpl. unfold bind at 1. rewrite Hbody. reflexivity.
  - intros n g' w' Hsteps Hn.
    destruct (start_steps_inv _ _ _ _ _ Hwf Hidx Hsteps) as (_ & Hpl & _ & Hnw).
    auto.
Qed.

Lemma switch_turn_active g w a :
  wf_game g w ->
  current_player_index g = 0 \/ current_player_index g = 1 ->
  active_player g = Some a ->
  exists a', active_player (switch_turn g) = Some a' /\ a' <> a.
Proof.
  intros (r1 & r2 & p1 & p2 & Hpl & Hne & _) Hidx.
  unfold active_player. simpl. rewrite Hpl.
  destruct Hidx as [-> | ->]; simpl; intros [= <-]; eauto.
Qed.

(** ** The loop of [Game.start] and its heads

    The fuel bounds the model, not the program: a run that ends ends the
    same way on any more fuel. *)

Lemma play_turn_loop_mono fuel : forall fuel' g player t w,
  (fuel <= fuel')%nat ->
  play_turn_loop fuel g player t w <> OutOfFuel ->
  play_turn_loop fuel' g player t w = play_turn_loop fuel g player t w.
Proof.
  induction fuel as [|fuel IH]; intros fuel' g player t w Hle H;
    [destruct H; reflexivity|].
  destruct fuel' as [|fuel']; [lia|].
  cbn [play_turn_loop] in *. unfold bind at 1. unfold bind at 1.
  unfold bind at 1 in H.
  destruct (play_turn_body g player t w) as [[t'|] w1|e w1|]; try reflexivity.
  apply IH; [lia|exact H].
Qed.

Lemma play_turn_mono fuel fuel' g player w :
  (fuel <= fuel')%nat ->
  play_turn fuel g player w <> OutOfFuel ->
  play_turn fuel' g player w = play_turn fuel g player w.
Proof.
  unfold play_turn, bind, get_object, print. intros Hle H.
  destruct (heap w !! player); [|reflexivity].
  apply play_turn_loop_mono; assumption.
Qed.

Lemma start_body_mono fuel fuel' g w :
  (fuel <= fuel')%nat ->
  start_body fuel g w <> OutOfFuel ->
  start_body fuel' g w = start_body fuel g w.
Proof.
  unfold start_body, bind. intros Hle H.
  destruct (getitem (players g) (current_player_index g) w)
    as [a wa|e wa|]; try reflexivity.
  rewrite (play_turn_mono fuel fuel' g a wa Hle); [reflexivity|].
  intros E. rewrite E in H. apply H. reflexivity.
Qed.

Lemma start_loop_mono fuel : forall fuel' g w,
  (fuel <= fuel')%nat ->
  start_loop fuel g w <> OutOfFuel ->
  start_loop fuel' g w = start_loop fuel g w.
Proof.
  induction fuel as [|fuel IH]; intros fuel' g w Hle H;
    [destruct H; reflexivity|].
  destruct fuel' as [|fuel']; [lia|].
  cbn [start_loop] in *. unfold bind at 1. unfold bind at 1.
  unfold bind at 1 in H.
  assert (Hb : start_body fuel g w <> OutOfFuel).
  { intros E. rewrite E in H. apply H. reflexivity. }
  rewrite (start_body_mono fuel fuel' g w) by (lia || exact Hb).
  destruct (start_body fuel g w) as [[g1|] w1|e w1|]; try reflexivity.
  apply IH; [lia|exact H].
Qed.

(** A head of the loop is where the loop stands after that many passes. *)
Lemma start_steps_loop n g w g1 w1 :
  start_steps n g w g1 w1 ->
  exists F, forall fuel,
    (F <= fuel)%nat -> start_loop (n + fuel) g w = start_loop fuel g1 w1.
Proof.
  induction 1 as [g w|n g w g1 w1 f g2 w2 H IH Hbody].
  - exists 0%nat. reflexivity.
  - destruct IH as (F & HF). exists (Nat.max F f). intros fuel Hfuel.
    replace (S n + fuel)%nat with (n + S fuel)%nat by lia.
    rewrite HF by lia. cbn [start_loop]. unfold bind at 1.
    rewrite (start_body_mono f fuel g1 w1)
      by (lia || (rewrite Hbody; discriminate)).
    rewrite Hbody. reflexivity.
Qed.

Lemma start_steps_cons f g w g1 w1 n g2 w2 :
  start_body f g w = Ok (Some g1) w1 ->
  start_steps n g1 w1 g2 w2 ->
  start_steps (S n) g w g2 w2.
Proof.
  intros Hbody H. induction H as [g1 w1|n g1 w1 g2 w2 f' g3 w3 H IH Hb].
  - eapply start_steps_S; [apply start_steps_O|exact Hbody].
  - eapply start_steps_S; [exact (IH Hbody)|exact Hb].
Qed.

(** A run of the loop that ends is a number of passes that go round
    again and a last pass that breaks or raises. *)
Lemma start_loop_steps fuel : forall g w r,
  start_loop fuel g w = r -> r <> OutOfFuel ->
  exists n g1 w1 f,
    start_steps n g w g1 w1 /\
    match r with
    | Ok g' w' => g' = g1 /\ start_body f g1 w1 = Ok None w'
    | Raise e w' => start_body f g1 w1 = Raise e w'
    | OutOfFuel => False
    end.
Proof.
  induction fuel as [|fuel IH]; intros g w r H Hr;
    [destruct Hr; rewrite <- H; reflexivity|].
  cbn [start_loop] in H. unfold bind at 1 in H.
  destruct (start_body fuel g w) as [[g1|] w1|e w1|] eqn:Hbody.
  - destruct (IH g1 w1 r H Hr) as (n & g2 & w2 & f & Hsteps & Hend).
    exists (S n), g2, w2, f. split; [|exact Hend].
    exact (start_steps_cons _ _ _ _ _ _ _ _ Hbody Hsteps).
  - subst r. exists 0%nat, g, w, fuel. split; [apply start_steps_O|].
    split; [reflexivity|exact Hbody].
  - subst r. exists 0%nat, g, w, fuel. split; [apply start_steps_O|].
    exact Hbody.
  - destruct Hr. rewrite <- H. reflexivity.
Qed.

(** C6: the loop of [Game.start], run from a game of two players, stands
    after [n] passes at a game whose index is [n mod 2] counted from the
    first index; the pass played there, ending on a 1 or on a hold, is the
    turn of the player at that index, and unless that turn is won the loop
    goes on from the game [switch_turn] leaves, at the other of 0 and 1,
    so that the next turn is the other player's; after a turn that is won
    the loop returns the game without a switch.  Every run of the loop
    that ends is such a sequence of passes followed by a last one. *)
Theorem active_player_alternates :
  forall g w,
    wf_game g w ->
    current_player_index g = 0 \/ current_player_index g = 1 ->
    (forall n g1 w1,
        start_steps n g w g1 w1 ->
        current_player_index g1
        = (current_player_index g + Z.of_nat n) mod 2 /\
        players g1 = players g /\
        (exists F, forall fuel,
            (F <= fuel)%nat ->
            start_loop (n + fuel) g w = start_loop fuel g1 w1) /\
        forall fuel r w2,
          start_body fuel g1 w1 = Ok r w2 ->
          exists a wt,
            active_player g1 = Some a /\
            play_turn fuel g1 a w1 = Ok tt wt /\
            (r = None -> start_loop (S fuel) g1 w1 = Ok g1 w2) /\
            forall g2,
              r = Some g2 ->
              g2 = switch_turn g1 /\
              current_player_index g2 = 1 - current_player_index g1 /\
              players g2 = players g1 /\
              start_loop (S fuel) g1 w1 = start_loop fuel g2 w2 /\
              exists a', active_player g2 = Some a' /\ a' <> a) /\
    (forall fuel r,
        start_loop fuel g w = r -> r <> OutOfFuel ->
        exists n g1 w1 f,
          start_steps n g w g1 w1 /\
          match r with
          | Ok g' w' => g' = g1 /\ start_body f g1 w1 = Ok None w'
          | Raise e w' => start_body f g1 w1 = Raise e w'
          | OutOfFuel => False
          end).
Proof.
  intros g w Hwf Hidx. split; [|intros fuel r; apply start_loop_steps].
  intros n g1 w1 Hsteps.
  destruct (start_steps_inv _ _ _ _ _ Hwf Hidx Hsteps) as (Hwf1 & Hpl & Hi & _).
  split; [exact Hi|]. split; [exact Hpl|].
  split; [exact (start_steps_loop _ _ _ _ _ Hsteps)|].
  intros fuel r w2 Hbody.
  assert (Hidx1 : current_player_index g1 = 0 \/ current_player_index g1 = 1).
  { rewrite Hi.
    pose proof (Z.mod_pos_bound (current_player_index g + Z.of_nat n) 2). lia. }
  destruct (start_body_inv _ _ _ _ _ Hwf1 Hidx1 Hbody)
    as (a & pa & wt & b & Hact & _ & Hturn & _ & _ & Hr).
  exists a, wt. split; [exact Hact|]. split; [exact Hturn|].
  cbn [start_loop]. unfold bind at 1 2. rewrite Hbody. split.
  - intros ->. reflexivity.
  - intros g2 ->. destruct b; [discriminate|]. injection Hr as ->.
    split; [reflexivity|]. split; [reflexivity|]. split; [reflexivity|].
    split; [reflexivity|].
    exact (switch_turn_active _ _ _ Hwf1 Hidx1 Hact).
Qed.

(** ** Input lines *)

Lemma lstrip_app l s :
  all_space l = true -> lstrip (l ++ s)%list = lstrip s.
Proof.
  unfold all_space. induction l as [|c l IH]; intros Hl; [reflexivity|].
  simpl in Hl. apply andb_true_iff in Hl as [Hc Hl].
  simpl. rewrite Hc. auto.
Qed.

Lemma rstrip_all_space r : all_space r = true -> rstrip r = [].
Proof.
  unfold all_space. induction r as [|c r IH]; intros Hr; [reflexivity|].
  simpl in Hr. apply andb_true_iff in Hr as [Hc Hr].
  simpl. rewrite (IH Hr), Hc. reflexivity.
Qed.

Lemma strip_padded l c r :
  all_space l = true -> all_space r = true -> py_isspace c = false ->
  strip (l ++ c :: r)%list = [c].
Proof.
  intros Hl Hr Hc. unfold strip. rewrite (lstrip_app _ _ Hl). simpl.
  rewrite Hc. simpl. rewrite (rstrip_all_space _ Hr), Hc. reflexivity.
Qed.

Lemma lstrip_split s :
  exists l, s = (l ++ lstrip s)%list /\ all_space l = true.
Proof.
  unfold all_space.
  induction s as [|c s (l & Hs & Hl)]; [exists []; auto|].
  simpl. destruct (py_isspace c) eqn:Hc.
  - exists (c :: l). simpl. rewrite Hc, Hl, <- Hs. auto.
  - exists []. auto.
Qed.

Lemma rstrip_split s :
  exists r, s = (rstrip s ++ r)%list /\ all_space r = true.
Proof.
  unfold all_space.
  induction s as [|c s (r & Hs & Hr)]; [exists []; auto|].
  simpl. destruct (rstrip s) as [|d u] eqn:Hrs.
  - simpl in Hs. subst s.
    destruct (py_isspace c) eqn:Hc.
    + exists (c :: r). simpl. rewrite Hc, Hr. auto.
    + exists r. auto.
  - exists r. split; [|exact Hr]. rewrite Hs at 1. reflexivity.
Qed.

Lemma ascii_lower_h c :
  ascii_lower c = N_of_ascii "h" ->
  c = N_of_ascii "h" \/ c = N_of_ascii "H".
Proof.
  change (N_of_ascii "h") with 104%N. change (N_of_ascii "H") with 72%N.
  unfold ascii_lower. destruct (_ && _)%N; intros H; [right|left]; lia.
Qed.

(** Only 'h' and 'H' are 'h' in lower case, as soon as the case tables
    make an 'h' of no string that is not of ASCII. *)
Lemma lower_is_h s :
  (forall u, is_ascii u = false -> unicode_lower u <> "h") ->
  lower s = "h" -> s = [N_of_ascii "h"] \/ s = [N_of_ascii "H"].
Proof.
  intros Hyp. unfold lower. destruct (is_ascii s) eqn:E.
  - change (of_string "h") with [N_of_ascii "h"].
    destruct s as [|c [|d s]]; simpl; intros H; try discriminate H.
    injection H as H. destruct (ascii_lower_h _ H) as [-> | ->]; auto.
  - intros H. destruct (Hyp _ E H).
Qed.

(** The lines that mean hold: an 'h' or an 'H' between whitespace. *)
Lemma human_decision_h line :
  (forall u, is_ascii u = false -> unicode_lower u <> "h") ->
  human_decision line = "h" <->
  exists l c r,
    line = (l ++ c :: r)%list /\ all_space l = true /\ all_space r = true /\
    (c = N_of_ascii "h" \/ c = N_of_ascii "H").
Proof.
  intros Hyp. unfold human_decision. split.
  - intros H. apply (lower_is_h _ Hyp) in H.
    destruct (lstrip_split line) as (l & Hline & Hl).
    destruct (rstrip_split (lstrip line)) as (r & Hmid & Hr).
    fold (strip line) in Hmid.
    destruct H as [H|H]; rewrite H in Hmid; rewrite Hmid in Hline;
      eexists l, _, r; (split; [exact Hline|]); auto.
  - intros (l & c & r & -> & Hl & Hr & [-> | ->]);
      rewrite strip_padded by (auto; reflexivity); reflexivity.
Qed.


(** ** The timed loop *)

Lemma check_winner_loop_frame ps : forall w b w',
  check_winner_loop ps w = Ok b w' -> frame w w' /\ heap w' = heap w.
Proof.
  induction ps as [|r ps IH]; intros w b w' H; simpl in H.
  - injection H as <- <-. auto using frame_refl.
  - run_m. destruct (heap w !! r) as [p|]; [|discriminate].
    destruct (score p >=? 100); [|eauto].
    injection H as <- <-. repeat split; reflexivity.
Qed.

Lemma play_turn_frame fuel g a w w' :
  play_turn fuel g a w = Ok tt w' -> frame w w'.
Proof.
  intros H. destruct (heap w !! a) as [p|] eqn:Hp.
  - destruct (play_turn_ok _ _ _ _ _ _ Hp H) as (k & Hf & _). exact Hf.
  - unfold play_turn in H. run_m. rewrite Hp in H. discriminate.
Qed.

Lemma declare_winner_two tg w r1 r2 p1 p2 :
  players (base tg) = [r1; r2] ->
  heap w !! r1 = Some p1 -> heap w !! r2 = Some p2 ->
  declare_winner tg w =
    Ok tt (set_stdout
             (stdout w ++ [if score p1 >? score p2 then timeup_wins_line p1
                           else if score p2 >? score p1 then timeup_wins_line p2
                           else timeup_tie_line]) w).
Proof.
  intros Hpl H1 H2. unfold declare_winner. rewrite Hpl. run_m.
  rewrite H1, H2.
  destruct (score p1 >? score p2); [reflexivity|].
  destruct (score p2 >? score p1); reflexivity.
Qed.

(** The rounding of the difference. *)

Lemma round_half_even_ge q k :
  (inject_Z k <= q)%Q -> k <= round_half_even q.
Proof.
  intros H. assert (Hf : k <= Qfloor q).
  { rewrite <- (Qfloor_Z k). apply Qfloor_resp_le, H. }
  unfold round_half_even.
  destruct (Qcompare _ _); [destruct (Z.even _)| |]; lia.
Qed.

Lemma pow2_pos e : (0 < pow2 e)%Q.
Proof.
  unfold pow2. destruct (0 <=? e) eqn:He.
  - apply Z.leb_le in He. change 0%Q with (inject_Z 0). rewrite <- Zlt_Qlt.
    apply Z.pow_pos_nonneg; lia.
  - apply Z.leb_gt in He. apply Qinv_lt_0_compat.
    change 0%Q with (inject_Z 0). rewrite <- Zlt_Qlt.
    apply Z.pow_pos_nonneg; lia.
Qed.

(** Whatever is 60 or more rounds to 60 or more: 60 is a float. *)
Lemma fl_ge_60 q : (60 <= q)%Q -> (60 <= fl q)%Q.
Proof.
  intros H. unfold fl.
  assert (Hpos : (0 < q)%Q) by lra.
  assert (Hne : Qeq_bool q 0 = false).
  { destruct (Qeq_bool q 0) eqn:E; [|reflexivity].
    apply Qeq_bool_iff in E. lra. }
  assert (Hge : Qle_bool 0 q = true) by (apply Qle_bool_iff; lra).
  assert (Habs : Qabs q = q).
  { destruct q as [n d]. unfold Qlt in Hpos. simpl in *.
    rewrite Z.abs_eq by lia. reflexivity. }
  rewrite Hne, Hge, Habs. cbv zeta.
  unfold ilog2. assert (H1 : Qle_bool 1 q = true) by (apply Qle_bool_iff; lra).
  rewrite H1.
  assert (Hfl : 60 <= Qfloor q).
  { change 60 with (Qfloor (inject_Z 60)). apply Qfloor_resp_le, H. }
  set (e := Z.log2 (Qfloor q)).
  assert (He : 5 <= e).
  { change 5 with (Z.log2 60). apply Z.log2_le_mono, Hfl. }
  assert (Hlow : (inject_Z (2 ^ e) <= q)%Q).
  { apply Qle_trans with (inject_Z (Qfloor q)); [|apply Qfloor_le].
    rewrite <- Zle_Qle. apply Z.log2_spec. lia. }
  pose proof (pow2_pos (e - 52)) as Hu.
  assert (Hk : exists k, (inject_Z k * pow2 (e - 52) <= q)%Q /\
                         (60 <= inject_Z k * pow2 (e - 52))%Q).
  { unfold pow2 in *. destruct (0 <=? e - 52) eqn:Hs.
    - apply Z.leb_le in Hs.
      destruct (Z.le_gt_cases (e - 52) 2) as [Hs2|Hs2].
      + exists (60 / 2 ^ (e - 52)).
        assert (Hdiv : 60 / 2 ^ (e - 52) * 2 ^ (e - 52) = 60).
        { assert (Hc : e - 52 = 0 \/ e - 52 = 1 \/ e - 52 = 2) by lia.
          destruct Hc as [-> |[-> | ->]]; reflexivity. }
        rewrite <- inject_Z_mult, Hdiv. split; [exact H|apply Qle_refl].
      + exists (2 ^ 52).
        rewrite <- inject_Z_mult, <- Z.pow_add_r by lia.
        replace (52 + (e - 52)) with e by lia.
        split; [exact Hlow|].
        change 60%Q with (inject_Z 60). rewrite <- Zle_Qle.
        apply Z.le_trans with (2 ^ 55); [vm_compute; discriminate|].
        apply Z.pow_le_mono_r; lia.
    - apply Z.leb_gt in Hs.
      exists (60 * 2 ^ (- (e - 52))).
      assert (Hp : (0 < inject_Z (2 ^ (- (e - 52))))%Q).
      { change 0%Q with (inject_Z 0). rewrite <- Zlt_Qlt.
        apply Z.pow_pos_nonneg; lia. }
      rewrite inject_Z_mult.
      assert (Heq : (inject_Z 60 * inject_Z (2 ^ (- (e - 52)))
                     * / inject_Z (2 ^ (- (e - 52))) == 60)%Q).
      { field. lra. }
      rewrite Heq. split; [exact H|apply Qle_refl]. }
  destruct Hk as (k & Hkq & Hk60).
  apply Qle_trans with (inject_Z k * pow2 (e - 52))%Q; [exact Hk60|].
  apply Qmult_le_compat_r; [|lra].
  rewrite <- Zle_Qle. apply round_half_even_ge.
  apply Qle_shift_div_l; assumption.
Qed.

Lemma time_is_up_after now start later :
  (start <= later)%Q -> (60 <= now - later)%Q -> time_is_up now start = true.
Proof.
  intros H1 H2. unfold time_is_up. apply Qle_bool_iff, fl_ge_60. lra.
Qed.

Lemma declare_winner_frame tg w u w' :
  declare_winner tg w = Ok u w' -> frame w w'.
Proof.
  unfold declare_winner.
  destruct (players (base tg)) as [|r1 [|r2 [|]]]; try discriminate.
  run_m.
  destruct (heap w !! r1) as [p1|]; [|discriminate].
  destruct (heap w !! r2) as [p2|]; [|discriminate].
  destruct (score p1 >? score p2); [|destruct (score p2 >? score p1)];
    intros [= <- <-]; split; reflexivity.
Qed.

Lemma getitem_world {A} (l : list A) i w a w' :
  getitem l i w = Ok a w' -> w' = w.
Proof.
  unfold getitem. destruct (if 0 <=? i then _ else _); [|discriminate].
  intros [= _ <-]. reflexivity.
Qed.

(** A pass through the timed loop reads the clock once, at its head. *)
Lemma timed_body_clock fuel tg w r w' :
  timed_start_body fuel tg w = Ok r w' ->
  clock w' = clock w /\ clock_pos w' = S (clock_pos w).
Proof.
  intros H. unfold timed_start_body in H. unfold bind at 1 in H.
  unfold time_time in H.
  assert (Hw0 : forall w0, w0 = set_clock_pos (S (clock_pos w)) w ->
                           frame w0 w' ->
                           clock w' = clock w /\ clock_pos w' = S (clock_pos w)).
  { intros w0 -> []. auto. }
  destruct (time_is_up _ _).
  - unfold bind at 1 in H.
    destruct (declare_winner tg _) as [u w1|e w1|] eqn:Hdecl; try discriminate.
    injection H as <- <-. apply declare_winner_frame in Hdecl. eauto.
  - unfold bind at 1 in H.
    destruct (getitem _ _ _) as [a wa|e wa|] eqn:Hget; try discriminate.
    apply getitem_world in Hget as ->.
    unfold bind at 1 in H.
    destruct (play_turn fuel (base tg) a _) as [[] w1|e w1|] eqn:Hturn;
      try discriminate.
    unfold bind at 1 in H.
    destruct (check_winner (base tg) w1) as [b w2|e w2|] eqn:Hcheck;
      try discriminate.
    apply play_turn_frame in Hturn.
    apply check_winner_loop_frame in Hcheck as [Hcheck _].
    assert (w2 = w') as -> by (destruct b; injection H as _ <-; reflexivity).
    eauto using frame_trans.
Qed.

(** C4: when the reading of the clock taken at the head of the timed loop
    is 60 seconds or more past the start of the loop, itself not before
    the start time the game recorded, the loop returns there: no turn is
    played, and the one line printed names the player with the strictly
    higher score, or a tie when the scores are equal; a turn reads no
    clock, each pass through the loop reads it once, before the turn. *)
Theorem timed_loop_stops_at_deadline :
  forall fuel tg w r1 r2 p1 p2 loop_start,
    players (base tg) = [r1; r2] ->
    heap w !! r1 = Some p1 ->
    heap w !! r2 = Some p2 ->
    (start_time tg <= loop_start)%Q ->
    (60 <= clock w (clock_pos w) - loop_start)%Q ->
    (exists line,
        timed_start_loop (S fuel) tg w
        = Ok tg (set_stdout (stdout w ++ [line])
                   (set_clock_pos (S (clock_pos w)) w)) /\
        (score p1 > score p2 -> line = timeup_wins_line p1) /\
        (score p2 > score p1 -> line = timeup_wins_line p2) /\
        (score p1 = score p2 -> line = timeup_tie_line)) /\
    (forall fuel' player wa wb,
        play_turn fuel' (base tg) player wa = Ok tt wb ->
        clock_pos wb = clock_pos wa) /\
    (forall fuel' wa r wb,
        timed_start_body fuel' tg wa = Ok r wb ->
        clock_pos wb = S (clock_pos wa)).
Proof.
  intros fuel tg w r1 r2 p1 p2 loop_start Hpl H1 H2 Hstart Hlate.
  split; [|split].
  - eexists. split.
    + simpl. unfold bind at 1. unfold timed_start_body. unfold bind at 1.
      unfold time_time.
      rewrite (time_is_up_after _ _ _ Hstart Hlate).
      unfold bind at 1.
      rewrite (declare_winner_two tg (set_clock_pos (S (clock_pos w)) w)
                 r1 r2 p1 p2 Hpl H1 H2).
      reflexivity.
    + wsimpl.
      destruct (Z.gtb_spec (score p1) (score p2));
        [|destruct (Z.gtb_spec (score p2) (score p1))];
        repeat split; intros; auto; lia.
  - intros fuel' player wa wb H. apply play_turn_frame in H. apply H.
  - intros fuel' wa r wb H. apply timed_body_clock in H. apply H.
Qed.

(** ** Building a game *)

Lemma valid_type_dec t : {valid_type t} + {~ valid_type t}.
Proof.
  unfold valid_type.
  destruct (pystr_eqb_spec (lower t) "human");
    destruct (pystr_eqb_spec (lower t) "computer"); auto.
  right. intros []; contradiction.
Qed.

Lemma create_player_valid t name w :
  valid_type t ->
  create_player t name w
  = Ok (length (heap w)) (set_heap (heap w ++ [made_player t name]) w).
Proof.
  intros Hv. unfold create_player, made_player.
  destruct (pystr_eqb_spec (lower t) "computer") as [Hc|Hc]; [reflexivity|].
  destruct (pystr_eqb_spec (lower t) "human") as [Hh|Hh]; [reflexivity|].
  destruct Hv; contradiction.
Qed.

Lemma create_player_invalid t name w :
  ~ valid_type t ->
  create_player t name w = Raise (ValueError invalid_player_type) w.
Proof.
  intros Hv. unfold create_player.
  destruct (pystr_eqb_spec (lower t) "computer") as [Hc|Hc];
    [destruct Hv; right; exact Hc|].
  destruct (pystr_eqb_spec (lower t) "human") as [Hh|Hh];
    [destruct Hv; left; exact Hh|].
  reflexivity.
Qed.

(** The world a game is built in: both players made, the generator
    seeded with 0. *)
Lemma Game_init_valid t1 t2 w :
  valid_type t1 -> valid_type t2 ->
  Game_init t1 t2 w =
    Ok (mkGame [length (heap w); S (length (heap w))] mkDie 0)
       (set_rng (seeded w 0) 0
          (set_heap (heap w ++ [made_player t1 "Player 1";
                                made_player t2 "Player 2"]) w)).
Proof.
  intros Hv1 Hv2. unfold Game_init. unfold bind at 1.
  rewrite (create_player_valid _ _ _ Hv1). unfold bind at 1.
  rewrite (create_player_valid _ _ _ Hv2). wsimpl.
  rewrite length_app, <- app_assoc. simpl.
  replace (length (heap w) + 1)%nat with (S (length (heap w))) by lia.
  reflexivity.
Qed.

Lemma Game_init_invalid t1 t2 w :
  ~ (valid_type t1 /\ valid_type t2) ->
  exists w',
    Game_init t1 t2 w = Raise (ValueError invalid_player_type) w' /\
    stdout w' = stdout w /\ stdin w' = stdin w /\
    rng_seq w' = rng_seq w /\ rng_pos w' = rng_pos w /\
    clock_pos w' = clock_pos w.
Proof.
  intros Hv. unfold Game_init. unfold bind at 1.
  destruct (valid_type_dec t1) as [Hv1|Hv1].
  - rewrite (create_player_valid _ _ _ Hv1). unfold bind at 1.
    rewrite create_player_invalid by tauto.
    eexists. split; [reflexivity|]. repeat split.
  - rewrite (create_player_invalid _ _ _ Hv1).
    eexists. split; [reflexivity|]. repeat split.
Qed.

Lemma Game_init_wf t1 t2 w g w' :
  Game_init t1 t2 w = Ok g w' ->
  wf_game g w' /\ current_player_index g = 0 /\ no_winner g w' /\
  rng_seq w' = seeded w 0 /\ rng_pos w' = 0%nat.
Proof.
  intros H.
  destruct (valid_type_dec t1) as [Hv1|Hv1];
    [destruct (valid_type_dec t2) as [Hv2|Hv2]|].
  - rewrite (Game_init_valid _ _ _ Hv1 Hv2) in H. injection H as <- <-.
    assert (H1 : (heap w ++ [made_player t1 "Player 1"; made_player t2 "Player 2"])%list
                   !! length (heap w) = Some (made_player t1 "Player 1")).
    { rewrite lookup_app_r by lia. rewrite Nat.sub_diag. reflexivity. }
    assert (H2 : (heap w ++ [made_player t1 "Player 1"; made_player t2 "Player 2"])%list
                   !! S (length (heap w)) = Some (made_player t2 "Player 2")).
    { rewrite lookup_app_r by lia.
      replace (S (length (heap w)) - length (heap w))%nat with 1%nat by lia.
      reflexivity. }
    split; [|split; [reflexivity|split; [|split; reflexivity]]].
    + eexists _, _, _, _. split; [reflexivity|]. split; [lia|].
      split; [exact H1|exact H2].
    + intros r p [<-|[<-|[]]]; wsimpl; intros Hr.
      * rewrite H1 in Hr. injection Hr as <-. simpl. lia.
      * rewrite H2 in Hr. injection Hr as <-. simpl. lia.
  - destruct (Game_init_invalid t1 t2 w) as (w2 & Hr & _); [tauto|]. congruence.
  - destruct (Game_init_invalid t1 t2 w) as (w2 & Hr & _); [tauto|]. congruence.
Qed.

(** C8: built with a player type that is not "human" or "computer" in
    some case, the game is not built: [ValueError] is raised with its
    message, nothing has been printed or read and no die has been seeded
    or rolled, and the timed game fails likewise; with two types that are,
    it is built with two new players of the kinds asked for, named
    "Player 1" and "Player 2", at score 0, the first of them to play. *)
Theorem invalid_player_type_rejected :
  forall t1 t2 w,
    (~ (valid_type t1 /\ valid_type t2) ->
     (exists w',
         Game_init t1 t2 w = Raise (ValueError invalid_player_type) w' /\
         stdout w' = stdout w /\ stdin w' = stdin w /\
         rng_seq w' = rng_seq w /\ rng_pos w' = rng_pos w) /\
     (exists w',
         TimedGameProxy_init t1 t2 w
         = Raise (ValueError invalid_player_type) w' /\
         stdout w' = stdout w)) /\
    (valid_type t1 /\ valid_type t2 ->
     exists g w' r1 r2 p1 p2,
       Game_init t1 t2 w = Ok g w' /\
       players g = [r1; r2] /\ r1 <> r2 /\ current_player_index g = 0 /\
       heap w !! r1 = None /\ heap w !! r2 = None /\
       heap w' !! r1 = Some p1 /\ heap w' !! r2 = Some p2 /\
       name p1 = "Player 1" /\ name p2 = "Player 2" /\
       score p1 = 0 /\ score p2 = 0 /\
       (lower t1 = "computer" -> cls p1 = ClsComputerPlayer) /\
       (lower t1 = "human" -> cls p1 = ClsPlayer) /\
       (lower t2 = "computer" -> cls p2 = ClsComputerPlayer) /\
       (lower t2 = "human" -> cls p2 = ClsPlayer) /\
       stdout w' = stdout w).
Proof.
  intros t1 t2 w. split.
  - intros Hv.
    destruct (Game_init_invalid t1 t2 w Hv)
      as (w' & Hr & Hout & Hin & Hseq & Hpos & _).
    split; [exists w'; auto|].
    exists w'. split; [|exact Hout].
    unfold TimedGameProxy_init. unfold bind at 1. rewrite Hr. reflexivity.
  - intros [Hv1 Hv2].
    eexists _, _, _, _, _, _.
    split; [apply (Game_init_valid _ _ _ Hv1 Hv2)|].
    split; [reflexivity|]. split; [lia|]. split; [reflexivity|].
    split; [apply lookup_ge_None; lia|].
    split; [apply lookup_ge_None; lia|]. wsimpl.
    split; [rewrite lookup_app_r by lia; rewrite Nat.sub_diag; reflexivity|].
    split; [rewrite lookup_app_r by lia;
            replace (S (length (heap w)) - length (heap w))%nat with 1%nat by lia;
            reflexivity|].
    unfold made_player. simpl.
    repeat split; try reflexivity; intros H; rewrite H; reflexivity.
Qed.

(** ** Runs that do not depend on the clock *)


Lemma cf_ret {A} (a : A) : clock_free (ret a).
Proof. intros w1 w2 H. simpl. auto. Qed.

Lemma cf_raise {A} e : clock_free (@raise A e).
Proof. intros w1 w2 H. simpl. auto. Qed.

Lemma cf_bind {A B} (m : M A) (k : A -> M B) :
  clock_free m -> (forall a, clock_free (k a)) -> clock_free (bind m k).
Proof.
  intros Hm Hk w1 w2 H. unfold bind. specialize (Hm w1 w2 H).
  destruct (m w1), (m w2); simpl in Hm; try contradiction; auto.
  destruct Hm as [-> Hw]. apply Hk, Hw.
Qed.


Lemma cf_print line : clock_free (print line).
Proof. weq_worlds. unfold print. weq_done. Qed.

Lemma cf_input line : clock_free (input line).
Proof.
  weq_worlds. unfold input. simpl. destruct stdin1 as [|[ln|e] rest]; weq_done.
Qed.

Lemma cf_randint : clock_free random_randint_1_6.
Proof. weq_worlds. unfold random_randint_1_6. weq_done. Qed.

Lemma cf_get_object r : clock_free (get_object r).
Proof. weq_worlds. unfold get_object. simpl. destruct (_ !! r); weq_done. Qed.

Lemma cf_put_object r p : clock_free (put_object r p).
Proof. weq_worlds. unfold put_object. weq_done. Qed.

Lemma cf_getitem {A} (l : list A) i : clock_free (getitem l i).
Proof.
  unfold getitem. destruct (if 0 <=? i then _ else _);
    [apply cf_ret|apply cf_raise].
Qed.

Create HintDb cf.
#[local] Hint Resolve cf_ret cf_raise cf_print cf_input cf_randint
  cf_get_object cf_put_object cf_getitem : cf.

Ltac cf_step :=
  first [ apply cf_bind; [|intros ?]
        | match goal with |- clock_free (if ?b then _ else _) => destruct b end
        | solve [auto with cf] ].

Lemma cf_play_turn_body g player t : clock_free (play_turn_body g player t).
Proof.
  unfold play_turn_body, Die_roll, ComputerPlayer.decide_method, add_to_score.
  repeat cf_step.
Qed.

Lemma cf_play_turn_loop fuel g player : forall t,
  clock_free (play_turn_loop fuel g player t).
Proof.
  induction fuel as [|fuel IH]; intros t; simpl.
  - intros w1 w2 _. exact I.
  - apply cf_bind; [apply cf_play_turn_body|].
    intros [t'|]; [apply IH|apply cf_ret].
Qed.

Lemma cf_play_turn fuel g player : clock_free (play_turn fuel g player).
Proof.
  unfold play_turn. repeat cf_step. apply cf_play_turn_loop.
Qed.

Lemma cf_check_winner g : clock_free (check_winner g).
Proof.
  unfold check_winner. induction (players g) as [|r ps IH]; simpl.
  - apply cf_ret.
  - apply cf_bind; [apply cf_get_object|]. intros p.
    destruct (score p >=? 100); [repeat cf_step|exact IH].
Qed.

Lemma cf_start_body fuel g : clock_free (start_body fuel g).
Proof.
  unfold start_body.
  apply cf_bind; [apply cf_getitem|]. intros a.
  apply cf_bind; [apply cf_play_turn|]. intros _.
  apply cf_bind; [apply cf_check_winner|]. intros []; apply cf_ret.
Qed.

Lemma cf_start_loop fuel : forall g, clock_free (start_loop fuel g).
Proof.
  induction fuel as [|fuel IH]; intros g; simpl.
  - intros w1 w2 _. exact I.
  - apply cf_bind; [apply cf_start_body|].
    intros [g'|]; [apply IH|apply cf_ret].
Qed.

Lemma cf_Game_start fuel g : clock_free (Game_start fuel g).
Proof.
  unfold Game_start. apply cf_bind; [apply cf_print|].
  intros _. apply cf_start_loop.
Qed.

Lemma req_outcome {A} (r1 r2 : result A) : req r1 r2 -> outcome r1 = outcome r2.
Proof.
  destruct r1 as [a [] | e [] |], r2 as [b [] | e' [] |]; simpl;
    try contradiction; auto;
    unfold weq, view, scores; simpl; intros [Hv [=]]; subst; reflexivity.
Qed.

Lemma in_choices_valid s : in_choices s = true -> valid_type s.
Proof.
  unfold in_choices. intros H. apply orb_true_iff in H as [H|H];
    apply pystr_eqb_eq in H; subst s; [left|right]; reflexivity.
Qed.

Lemma fresh_outcome_raise {A} e w1 w2 :
  same_inputs w1 w2 ->
  outcome (@raise A e w1) = outcome (@raise A e w2).
Proof.
  intros ((Hh1 & Hp1 & Ho1 & _) & (Hh2 & Hp2 & Ho2 & _) & _).
  unfold raise, outcome, scores. rewrite Hh1, Hp1, Ho1, Hh2, Hp2, Ho2.
  reflexivity.
Qed.

(** Two fresh worlds typed the same lines are, once the game is built,
    the same but for their clocks. *)
Lemma Game_init_weq t1 t2 w1 w2 :
  same_inputs w1 w2 -> valid_type t1 -> valid_type t2 ->
  exists g w1' w2',
    Game_init t1 t2 w1 = Ok g w1' /\ Game_init t1 t2 w2 = Ok g w2' /\
    weq w1' w2' /\
    (clock w1 = clock w2 -> w1' = w2').
Proof.
  intros ((Hh1 & Hp1 & Ho1 & Hc1) & (Hh2 & Hp2 & Ho2 & Hc2) & Hin & Hsd) Hv1 Hv2.
  rewrite !Game_init_valid by assumption.
  destruct w1, w2; simpl in *; subst.
  eexists _, _, _. split; [reflexivity|]. split; [reflexivity|].
  split; [reflexivity|]. intros ->. reflexivity.
Qed.

(** C9, as amended: every game, plain or timed, has its generator seeded
    with 0 when it is built, whatever the types asked for; two runs of the
    plain game that are typed the same lines print the same lines, draw
    the same faces and reach the same scores, and so do two runs of the
    timed game that also read the same clock. *)
Theorem seed_zero_runs_agree :
  (forall t1 t2 w g w',
      Game_init t1 t2 w = Ok g w' ->
      rng_seq w' = seeded w 0 /\ rng_pos w' = 0%nat) /\
  (forall t1 t2 w tg w',
      TimedGameProxy_init t1 t2 w = Ok tg w' ->
      rng_seq w' = seeded w 0 /\ rng_pos w' = 0%nat) /\
  (forall fuel player1 player2 w1 w2,
      same_inputs w1 w2 ->
      outcome (main fuel player1 player2 false w1)
      = outcome (main fuel player1 player2 false w2)) /\
  (forall fuel player1 player2 w1 w2,
      same_inputs w1 w2 ->
      clock w1 = clock w2 ->
      outcome (main fuel player1 player2 true w1)
      = outcome (main fuel player1 player2 true w2)).
Proof.
  split; [|split; [|split]].
  - intros t1 t2 w g w' H. apply Game_init_wf in H. tauto.
  - intros t1 t2 w tg w' H. unfold TimedGameProxy_init in H.
    unfold bind at 1 in H.
    destruct (Game_init t1 t2 w) as [g w1|e w1|] eqn:Hinit; try discriminate.
    apply Game_init_wf in Hinit as (_ & _ & _ & Hseq & Hpos).
    unfold bind, time_time, ret in H. injection H as <- <-. auto.
  - intros fuel p1 p2 w1 w2 Hsame. unfold main.
    destruct (in_choices p1 && in_choices p2) eqn:Hch; cbn [negb];
      [|exact (@fresh_outcome_raise unit _ _ _ Hsame)].
    apply andb_true_iff in Hch as [Hc1 Hc2].
    destruct (Game_init_weq p1 p2 w1 w2 Hsame)
      as (g & w1' & w2' & H1 & H2 & Hweq & _); auto using in_choices_valid.
    unfold bind at 1 3. rewrite H1, H2.
    apply req_outcome, cf_bind;
      [apply cf_Game_start|intros; apply cf_ret|exact Hweq].
  - intros fuel p1 p2 w1 w2 Hsame Hclock. unfold main.
    destruct (in_choices p1 && in_choices p2) eqn:Hch; cbn [negb];
      [|exact (@fresh_outcome_raise unit _ _ _ Hsame)].
    apply andb_true_iff in Hch as [Hc1 Hc2].
    destruct (Game_init_weq p1 p2 w1 w2 Hsame)
      as (g & w1' & w2' & H1 & H2 & _ & Heq); auto using in_choices_valid.
    specialize (Heq Hclock). subst w2'.
    assert (Hinit : TimedGameProxy_init p1 p2 w1 = TimedGameProxy_init p1 p2 w2).
    { unfold TimedGameProxy_init, bind. rewrite H1, H2. reflexivity. }
    unfold bind. rewrite Hinit. reflexivity.
Qed.

Lemma cycle_faces_ok faces :
  (forall x, In x faces -> 1 <= x <= 6) ->
  forall s i, 1 <= cycle faces s i <= 6.
Proof.
  intros H s i. unfold cycle.
  destruct (nth_in_or_default (i mod length faces) faces 1) as [Hin| ->];
    [apply H, Hin|lia].
Qed.

(** * Further properties of the turn *)

Lemma drop_cons_next {A} (l : list A) n x l' :
  drop n l = x :: l' -> drop (S n) l = l' /\ (S n <= length l)%nat.
Proof.
  intros H. split.
  - replace (S n) with (n + 1)%nat by lia. rewrite <- drop_drop, H. reflexivity.
  - assert (Hl : length (drop n l) = S (length l')) by (rewrite H; reflexivity).
    rewrite length_drop in Hl. lia.
Qed.

(** What a pass reads from the input. *)
Lemma body_stdin g player t w p r w' :
  heap w !! player = Some p ->
  play_turn_body g player t w = Ok r w' ->
  if isinstance_ComputerPlayer p then stdin w' = stdin w
  else if rng_seq w (rng_pos w) =? 1 then stdin w' = stdin w
       else exists line, stdin w = Line line :: stdin w'.
Proof.
  intros Hp H. rewrite (body_eq _ _ _ _ _ Hp) in H. cbv zeta in H.
  destruct (isinstance_ComputerPlayer p).
  - destruct (_ =? 1); [injection H as _ <-; reflexivity|].
    destruct (String.eqb _ "h"); injection H as _ <-; reflexivity.
  - destruct (_ =? 1); [injection H as _ <-; reflexivity|].
    destruct (stdin w) as [|[line|e] rest]; try discriminate.
    exists line. destruct (pystr_eqb _ "h"); injection H as _ <-; reflexivity.
Qed.

Lemma turn_steps_stdin g player n t w t' w' p :
  heap w !! player = Some p ->
  turn_steps g player n t w t' w' ->
  if isinstance_ComputerPlayer p then stdin w' = stdin w
  else stdin w' = drop n (stdin w) /\ (n <= length (stdin w))%nat.
Proof.
  intros Hp H. induction H as [t w|n t w t1 w1 t2 w2 H IH Hbody].
  - destruct (isinstance_ComputerPlayer p); [reflexivity|].
    split; [reflexivity|lia].
  - specialize (IH Hp).
    destruct (turn_steps_inv _ _ _ _ _ _ _ _ Hp H) as (_ & Hh & _).
    assert (Hp1 : heap w1 !! player = Some p) by (rewrite Hh; exact Hp).
    pose proof (body_stdin _ _ _ _ _ _ _ Hp1 Hbody) as Hin.
    destruct (body_inv _ _ _ _ _ _ _ Hp1 Hbody) as (_ & _ & Hne & _).
    destruct (isinstance_ComputerPlayer p); [congruence|].
    apply Z.eqb_neq in Hne. rewrite Hne in Hin.
    destruct Hin as (line & Hin). destruct IH as (IH & _).
    rewrite IH in Hin. apply drop_cons_next in Hin as [Hd Hl]. auto.
Qed.

(** The line a human's pass has read when it goes round again. *)
Lemma body_line g player t w p t' w' :
  heap w !! player = Some p ->
  isinstance_ComputerPlayer p = false ->
  play_turn_body g player t w = Ok (Some t') w' ->
  exists line, stdin w = Line line :: stdin w' /\ human_decision line <> "h".
Proof.
  intros Hp Hcls H. rewrite (body_eq _ _ _ _ _ Hp) in H. cbv zeta in H.
  rewrite Hcls in H. destruct (_ =? 1); [discriminate|].
  destruct (stdin w) as [|[line|e] rest]; try discriminate.
  exists line. destruct (pystr_eqb_spec (human_decision line) "h");
    [discriminate|]. injection H as _ <-. auto.
Qed.

(** The lines a human has read at a head of the loop: one for each roll,
    none of them a hold. *)
Lemma turn_steps_lines g player n t w t' w' p :
  heap w !! player = Some p ->
  isinstance_ComputerPlayer p = false ->
  turn_steps g player n t w t' w' ->
  exists ls,
    length ls = n /\ stdin w = (map Line ls ++ stdin w')%list /\
    Forall (fun line => human_decision line <> "h") ls.
Proof.
  intros Hp Hcls H. induction H as [t w|n t w t1 w1 t2 w2 H IH Hbody].
  - exists []. auto.
  - destruct (IH Hp) as (ls & Hlen & Hin & Hall).
    destruct (turn_steps_inv _ _ _ _ _ _ _ _ Hp H) as (_ & Hh & _).
    assert (Hp1 : heap w1 !! player = Some p) by (rewrite Hh; exact Hp).
    destruct (body_line _ _ _ _ _ _ _ Hp1 Hcls Hbody) as (line & Hin1 & Hd).
    exists (ls ++ [line])%list. rewrite length_app, map_app, <- app_assoc.
    simpl. rewrite <- Hin1. split; [lia|]. split; [exact Hin|].
    apply Forall_app. auto.
Qed.

Lemma lines_read_refl w w' : stdin w' = stdin w -> lines_read w w'.
Proof. intros H. exists []. rewrite H. reflexivity. Qed.

Lemma lines_read_trans w1 w2 w3 :
  lines_read w1 w2 -> lines_read w2 w3 -> lines_read w1 w3.
Proof.
  intros (l1 & H1) (l2 & H2). exists (l1 ++ l2)%list.
  rewrite H1, H2, map_app, app_assoc. reflexivity.
Qed.

Lemma lines_read_raised e w1 w2 w3 :
  lines_read w1 w2 -> input_raised e w2 w3 -> input_raised e w1 w3.
Proof.
  intros (l1 & H1) (l2 & [H2|(He & H2 & H3)]); exists (l1 ++ l2)%list.
  - left. rewrite H1, H2, map_app, app_assoc. reflexivity.
  - right. rewrite H1, H2, map_app. auto.
Qed.

Lemma input_raised_stdin e w1 w1' w2 w2' :
  stdin w1' = stdin w1 -> stdin w2' = stdin w2 ->
  input_raised e w1 w2 -> input_raised e w1' w2'.
Proof. unfold input_raised. intros -> ->. auto. Qed.

(** The one way a pass raises: its call of [input()] does. *)
Lemma body_raise_input g player t w p e w' :
  heap w !! player = Some p ->
  play_turn_body g player t w = Raise e w' ->
  isinstance_ComputerPlayer p = false /\
  (stdin w = Fails e :: stdin w' \/
   (e = EOFError /\ stdin w = [] /\ stdin w' = [])) /\
  rng_seq w (rng_pos w) <> 1 /\
  rng_pos w' = S (rng_pos w) /\ heap w' = heap w /\
  last (stdout w') = Some prompt.
Proof.
  intros Hp H. rewrite (body_eq _ _ _ _ _ Hp) in H. cbv zeta in H.
  destruct (Z.eqb_spec (rng_seq w (rng_pos w)) 1) as [|Hne]; [discriminate|].
  destruct (isinstance_ComputerPlayer p).
  - destruct (String.eqb _ "h"); discriminate.
  - destruct (stdin w) as [|[line|e0] rest] eqn:Hin;
      [|destruct (pystr_eqb _ "h"); discriminate|];
      injection H as <- <-; wsimpl; rewrite last_snoc; auto 10.
Qed.

Lemma play_turn_raise fuel g player w p e w' :
  heap w !! player = Some p ->
  play_turn fuel g player w = Raise e w' ->
  isinstance_ComputerPlayer p = false /\ heap w' = heap w /\
  last (stdout w') = Some prompt /\
  exists ls,
    Forall (fun line => human_decision line <> "h") ls /\
    rng_pos w' = (rng_pos w + S (length ls))%nat /\
    (stdin w = (map Line ls ++ Fails e :: stdin w')%list \/
     (e = EOFError /\ stdin w = map Line ls /\ stdin w' = [])).
Proof.
  intros Hp H.
  destruct (play_turn_inv _ _ _ _ _ _ Hp H)
    as (n & t1 & w1 & _ & Hmid & Hp1 & Hend); [discriminate|].
  destruct (mid_turn_inv _ _ _ _ _ _ _ Hp Hmid)
    as (Hsteps & _ & Hh & Hpos & _).
  destruct (body_raise_input _ _ _ _ _ _ _ Hp1 Hend)
    as (Hcls & Hin1 & _ & Hpos' & Hh' & Hout).
  assert (Hpe : heap (turn_entry p w) !! player = Some p) by exact Hp.
  destruct (turn_steps_lines _ _ _ _ _ _ _ _ Hpe Hcls Hsteps)
    as (ls & Hlen & Hin & Hall).
  unfold turn_entry in Hin. wsimpl.
  split; [exact Hcls|]. split; [congruence|]. split; [exact Hout|].
  exists ls. split; [exact Hall|]. split; [lia|].
  destruct Hin1 as [Hin1|(He & Hin1 & Hin')].
  - left. rewrite Hin, Hin1. reflexivity.
  - right. rewrite Hin, Hin1, app_nil_r. auto.
Qed.

Lemma play_turn_input_raised fuel g player w p e w' :
  heap w !! player = Some p ->
  play_turn fuel g player w = Raise e w' ->
  input_raised e w w'.
Proof.
  intros Hp H.
  destruct (play_turn_raise _ _ _ _ _ _ _ Hp H)
    as (_ & _ & _ & ls & _ & _ & Hin).
  exists ls. exact Hin.
Qed.


(** X4: a turn that returns has read one line of input for each roll
    that was not a 1 when the player is a human, and none when it is the
    computer. *)
Theorem turn_reads_one_line_per_roll :
  forall fuel g player w p w',
    heap w !! player = Some p ->
    play_turn fuel g player w = Ok tt w' ->
    exists k,
      rng_pos w' = (rng_pos w + S k)%nat /\
      if isinstance_ComputerPlayer p then stdin w' = stdin w
      else
        let read := if rng_seq w (rng_pos w + k)%nat =? 1 then k else S k in
        stdin w' = drop read (stdin w) /\ (read <= length (stdin w))%nat.
Proof.
  intros fuel g player w p w' Hp H.
  destruct (play_turn_inv _ _ _ _ _ _ Hp H)
    as (n & t1 & w1 & _ & Hmid & Hp1 & Hend); [discriminate|].
  destruct (mid_turn_inv _ _ _ _ _ _ _ Hp Hmid)
    as (Hsteps & Hf & Hh & Hpos & _).
  destruct (body_inv _ _ _ _ _ _ _ Hp1 Hend) as (_ & Hpos' & _).
  pose proof (body_stdin _ _ _ _ _ _ _ Hp1 Hend) as Hlast.
  assert (Hpe : heap (turn_entry p w) !! player = Some p) by exact Hp.
  pose proof (turn_steps_stdin _ _ _ _ _ _ _ _ Hpe Hsteps) as Hin.
  exists n. split; [lia|]. unfold turn_entry in Hin.
  rewrite (frame_rng_seq _ _ Hf), Hpos in Hlast.
  destruct (isinstance_ComputerPlayer p); [wsimpl; congruence|].
  cbv zeta. destruct Hin as (Hin & Hn). wsimpl.
  destruct (_ =? 1).
  - split; [congruence|exact Hn].
  - destruct Hlast as (line & Hlast). rewrite Hin in Hlast.
    apply drop_cons_next in Hlast as [Hd Hl]. auto.
Qed.

(** ** The computer's turn *)

Lemma decide_roll_below t s :
  ComputerPlayer.decide t s = "r" -> t < Z.min 25 (100 - s).
Proof.
  unfold ComputerPlayer.decide.
  destruct (Z.geb_spec t (Z.min 25 (100 - s))); [discriminate|auto].
Qed.

Lemma decide_hold_reached t s :
  ComputerPlayer.decide t s = "h" -> Z.min 25 (100 - s) <= t.
Proof.
  unfold ComputerPlayer.decide.
  destruct (Z.geb_spec t (Z.min 25 (100 - s))); [lia|discriminate].
Qed.

Lemma decide_cases t s :
  ComputerPlayer.decide t s = "h" \/ ComputerPlayer.decide t s = "r".
Proof. unfold ComputerPlayer.decide. destruct (_ >=? _); auto. Qed.

(** The computer goes round again only below its threshold. *)
Lemma body_computer_continue g player t w p t' w' :
  heap w !! player = Some p ->
  isinstance_ComputerPlayer p = true ->
  play_turn_body g player t w = Ok (Some t') w' ->
  t' < Z.min 25 (100 - score p).
Proof.
  intros Hp Hcls H. rewrite (body_eq _ _ _ _ _ Hp) in H. cbv zeta in H.
  rewrite Hcls in H. destruct (_ =? 1); [discriminate|].
  destruct (decide_cases (t + rng_seq w (rng_pos w)) (score p)) as [Hd|Hd];
    rewrite Hd in H; simpl in H; [discriminate|].
  injection H as <- _. apply decide_roll_below, Hd.
Qed.

Lemma turn_steps_computer g player n t w t' w' p :
  heap w !! player = Some p ->
  isinstance_ComputerPlayer p = true ->
  turn_steps g player n t w t' w' ->
  t <= 24 -> t' <= 24.
Proof.
  intros Hp Hcls H Ht. destruct H as [t w|n t w t1 w1 t2 w2 H Hbody]; [exact Ht|].
  destruct (turn_steps_inv _ _ _ _ _ _ _ _ Hp H) as (_ & Hh & _).
  assert (Hp1 : heap w1 !! player = Some p) by (rewrite Hh; exact Hp).
  pose proof (body_computer_continue _ _ _ _ _ _ _ Hp1 Hcls Hbody). lia.
Qed.

(** From a head of the loop with the turn total [t], the computer is
    done within [(26 - t) / 2] rolls. *)
Lemma computer_loop_returns fuel : forall g player t w p,
  heap w !! player = Some p ->
  isinstance_ComputerPlayer p = true ->
  faces_ok w ->
  t <= 24 -> 26 - t <= 2 * Z.of_nat fuel ->
  exists w',
    play_turn_loop fuel g player t w = Ok tt w' /\
    (rng_pos w <= rng_pos w')%nat /\
    2 * Z.of_nat (rng_pos w' - rng_pos w) <= 26 - t /\
    stdin w' = stdin w.
Proof.
  induction fuel as [|fuel IH]; intros g player t w p Hp Hcls Hfaces Ht Hfuel;
    [lia|].
  cbn [play_turn_loop]. unfold bind at 1.
  destruct (play_turn_body g player t w) as [r w1|e w1|] eqn:Hbody.
  - destruct (body_inv _ _ _ _ _ _ _ Hp Hbody) as (Hf & Hpos & Hcase).
    pose proof (body_stdin _ _ _ _ _ _ _ Hp Hbody) as Hin. rewrite Hcls in Hin.
    destruct r as [t'|].
    + destruct Hcase as (Hne & -> & Hh).
      pose proof (body_computer_continue _ _ _ _ _ _ _ Hp Hcls Hbody) as Hlow.
      pose proof (Hfaces (rng_pos w)) as Hface.
      destruct (IH g player (t + rng_seq w (rng_pos w)) w1 p)
        as (w' & Hrun & Hle & Hcount & Hin'); try lia.
      * rewrite Hh. exact Hp.
      * exact Hcls.
      * intros i. rewrite (frame_rng_seq _ _ Hf). apply Hfaces.
      * exists w'. split; [exact Hrun|]. split; [lia|]. split; [lia|congruence].
    + exists w1. split; [reflexivity|]. split; [lia|]. split; [lia|exact Hin].
  - destruct (body_raise_input _ _ _ _ _ _ _ Hp Hbody) as (Hhuman & _).
    congruence.
  - rewrite (body_eq _ _ _ _ _ Hp) in Hbody. cbv zeta in Hbody.
    rewrite Hcls in Hbody. destruct (_ =? 1); [discriminate|].
    destruct (String.eqb _ "h"); discriminate.
Qed.

(** X1: the computer's turn always ends: with the faces of a die it
    returns within 13 rolls, asks for no input and raises nothing. *)
Theorem computer_turn_terminates :
  forall fuel g player w p,
    heap w !! player = Some p ->
    isinstance_ComputerPlayer p = true ->
    faces_ok w ->
    (13 <= fuel)%nat ->
    exists w',
      play_turn fuel g player w = Ok tt w' /\
      (rng_pos w < rng_pos w' <= rng_pos w + 13)%nat /\
      stdin w' = stdin w.
Proof.
  intros fuel g player w p Hp Hcls Hfaces Hfuel.
  rewrite (play_turn_eq _ _ _ _ _ Hp).
  destruct (computer_loop_returns fuel g player 0 (turn_entry p w) p)
    as (w' & Hrun & Hle & Hcount & Hin); auto; try lia.
  exists w'. split; [exact Hrun|]. split; [|exact Hin].
  assert (Hrun' : play_turn fuel g player w = Ok tt w')
    by (rewrite (play_turn_eq _ _ _ _ _ Hp); exact Hrun).
  destruct (play_turn_ok _ _ _ _ _ _ Hp Hrun') as (k & _ & Hpos & _).
  unfold turn_entry in *. wsimpl. lia.
Qed.

(** X2: a turn of the computer that ends on a hold adds to its score at
    least [min(25, 100 - score)], at least 2 and at most 30 points. *)
Theorem computer_hold_gain :
  forall fuel g player w p w',
    heap w !! player = Some p ->
    isinstance_ComputerPlayer p = true ->
    faces_ok w ->
    play_turn fuel g player w = Ok tt w' ->
    heap w' = heap w \/
    exists gain,
      heap w' = <[player := with_score p (score p + gain)]> (heap w) /\
      Z.min 25 (100 - score p) <= gain /\ 2 <= gain <= 30.
Proof.
  intros fuel g player w p w' Hp Hcls Hfaces H.
  destruct (play_turn_inv _ _ _ _ _ _ Hp H)
    as (n & t1 & w1 & _ & Hmid & Hp1 & Hend); [discriminate|].
  destruct (mid_turn_inv _ _ _ _ _ _ _ Hp Hmid)
    as (Hsteps & Hf & Hh & Hpos & Ht & _).
  assert (Hpe : heap (turn_entry p w) !! player = Some p) by exact Hp.
  pose proof (turn_steps_computer _ _ _ _ _ _ _ _ Hpe Hcls Hsteps) as Hlow.
  pose proof (sum_of_rolls_nonneg (rng_seq w) (rng_pos w) n Hfaces) as Hnn.
  rewrite (body_eq _ _ _ _ _ Hp1) in Hend. cbv zeta in Hend.
  rewrite Hcls in Hend.
  pose proof (Hfaces (rng_pos w1)) as Hface.
  rewrite (frame_rng_seq _ _ Hf) in Hend.
  destruct (Z.eqb_spec (rng_seq w (rng_pos w1)) 1) as [|Hne].
  - left. injection Hend as <-. wsimpl. exact Hh.
  - right.
    destruct (decide_cases (t1 + rng_seq w (rng_pos w1)) (score p)) as [Hd|Hd];
      rewrite Hd in Hend; simpl in Hend; [|discriminate].
    injection Hend as <-. wsimpl.
    exists (t1 + rng_seq w (rng_pos w1)). rewrite Hh.
    split; [reflexivity|]. apply decide_hold_reached in Hd. lia.
Qed.

(** * Further properties of the game *)

Lemma check_winner_loop_io ps : forall w b w',
  check_winner_loop ps w = Ok b w' ->
  rng_pos w' = rng_pos w /\ stdin w' = stdin w.
Proof.
  induction ps as [|r ps IH]; intros w b w' H; simpl in H.
  - injection H as <- <-. auto.
  - run_m. destruct (heap w !! r) as [p|]; [|discriminate].
    destruct (score p >=? 100); [|eauto].
    injection H as <- <-. auto.
Qed.

Lemma wf_lookup g w r :
  wf_game g w -> In r (players g) -> exists p, heap w !! r = Some p.
Proof.
  intros (r1 & r2 & p1 & p2 & Hpl & _ & H1 & H2). rewrite Hpl.
  intros [<-|[<-|[]]]; eauto.
Qed.

Lemma active_in g a : active_player g = Some a -> In a (players g).
Proof.
  unfold active_player. intros H.
  apply list_elem_of_In, list_elem_of_lookup. eauto.
Qed.

(** What one pass through the loop of [Game.start] keeps. *)
Lemma start_body_pass fuel g w r w' :
  wf_game g w ->
  current_player_index g = 0 \/ current_player_index g = 1 ->
  start_body fuel g w = Ok r w' ->
  same_players g w w' /\ frame w w' /\ (rng_pos w < rng_pos w')%nat /\
  (faces_ok w -> scores_grow g w w').
Proof.
  intros Hwf Hidx H.
  destruct (start_body_inv _ _ _ _ _ Hwf Hidx H)
    as (a & pa & w1 & b & Hact & Hpa & Hturn & Hwf1 & Hcheck & _).
  assert (Hrun : run_result (play_turn fuel g a w) = Some w1)
    by (rewrite Hturn; reflexivity).
  destruct (play_turn_objects _ _ _ _ _ _ Hpa Hrun)
    as (Hother & (pa' & Hpa' & Hname & Hcls & k & Hscore) & _).
  destruct (play_turn_ok _ _ _ _ _ _ Hpa Hturn) as (k' & Hf & Hpos & _).
  destruct (check_winner_loop_frame _ _ _ _ Hcheck) as (Hf' & Hh').
  destruct (check_winner_loop_io _ _ _ _ Hcheck) as (Hpos' & _).
  split; [|split; [eauto using frame_trans|split; [lia|]]].
  - intros r0 p Hin Hr. rewrite Hh'.
    destruct (decide (r0 = a)) as [->|Hne].
    + exists pa'. split; [exact Hpa'|]. split; congruence.
    + exists p. rewrite (Hother _ Hne). auto.
  - intros Hfaces r0 p p' Hin Hr Hr'. rewrite Hh' in Hr'.
    destruct (decide (r0 = a)) as [->|Hne].
    + assert (p = pa) by congruence. assert (p' = pa') by congruence. subst.
      pose proof (sum_of_rolls_nonneg (rng_seq w) (rng_pos w) k Hfaces). lia.
    + rewrite (Hother _ Hne) in Hr'. assert (p' = p) by congruence. subst. lia.
Qed.

Lemma same_players_refl g w : same_players g w w.
Proof. intros r p _ Hr. eauto. Qed.

Lemma same_players_trans g w1 w2 w3 :
  same_players g w1 w2 -> same_players g w2 w3 -> same_players g w1 w3.
Proof.
  intros H12 H23 r p Hin Hr.
  destruct (H12 r p Hin Hr) as (p2 & Hr2 & Hn2 & Hc2).
  destruct (H23 r p2 Hin Hr2) as (p3 & Hr3 & Hn3 & Hc3).
  exists p3. split; [exact Hr3|]. split; congruence.
Qed.

Lemma same_players_of g g' w w' :
  players g' = players g -> same_players g' w w' -> same_players g w w'.
Proof. intros Hpl H r p. rewrite <- Hpl. apply H. Qed.

Lemma start_steps_kept n g w g' w' :
  wf_game g w ->
  current_player_index g = 0 \/ current_player_index g = 1 ->
  start_steps n g w g' w' ->
  same_players g w w' /\ frame w w' /\ (rng_pos w + n <= rng_pos w')%nat /\
  (faces_ok w -> scores_grow g w w').
Proof.
  intros Hwf Hidx H. induction H as [g w|n g w g1 w1 fuel g2 w2 H IH Hbody].
  - split; [apply same_players_refl|]. split; [apply frame_refl|].
    split; [lia|]. intros _ r p p' _ Hr Hr'.
    assert (p' = p) by congruence. subst. lia.
  - destruct (IH Hwf Hidx) as (Hsame & Hf & Hpos & Hgrow).
    destruct (start_steps_inv _ _ _ _ _ Hwf Hidx H) as (Hwf1 & Hpl & Hi & _).
    assert (Hidx1 : current_player_index g1 = 0 \/ current_player_index g1 = 1).
    { rewrite Hi.
      pose proof (Z.mod_pos_bound (current_player_index g + Z.of_nat n) 2). lia. }
    destruct (start_body_pass _ _ _ _ _ Hwf1 Hidx1 Hbody)
      as (Hsame' & Hf' & Hpos' & Hgrow').
    apply (same_players_of g g1) in Hsame'; [|exact Hpl].
    split; [eauto using same_players_trans|].
    split; [eauto using frame_trans|]. split; [lia|].
    intros Hfaces r p p' Hin Hr Hr'.
    destruct (Hsame r p Hin Hr) as (p1 & Hr1 & _).
    assert (Hfaces1 : faces_ok w1)
      by (intros i; rewrite (frame_rng_seq _ _ Hf); apply Hfaces).
    specialize (Hgrow Hfaces r p p1 Hin Hr Hr1).
    assert (Hin1 : In r (players g1)) by (rewrite Hpl; exact Hin).
    specialize (Hgrow' Hfaces1 r p1 p' Hin1 Hr1 Hr'). lia.
Qed.

(** X5: over any number of turns of [Game.start] the two players stay
    the objects they were, with their names and classes; with the faces of
    a die no score ever goes down; every turn draws at least one roll from
    the one sequence the generator is on. *)
Theorem game_keeps_players_scores_grow :
  forall n g w g' w',
    wf_game g w ->
    current_player_index g = 0 \/ current_player_index g = 1 ->
    start_steps n g w g' w' ->
    same_players g w w' /\
    (faces_ok w -> scores_grow g w w') /\
    rng_seq w' = rng_seq w /\ (rng_pos w + n <= rng_pos w')%nat /\
    length (heap w') = length (heap w).
Proof.
  intros n g w g' w' Hwf Hidx H.
  destruct (start_steps_kept _ _ _ _ _ Hwf Hidx H) as (Hsame & Hf & Hpos & Hgrow).
  destruct Hf. auto.
Qed.

(** X6: when a pass entered with nobody at 100 breaks out of the loop,
    the winner announced is the player who has just played, and the other
    player is still below 100. *)
Theorem winner_is_player_on_turn :
  forall fuel g w w',
    wf_game g w ->
    current_player_index g = 0 \/ current_player_index g = 1 ->
    no_winner g w ->
    start_body fuel g w = Ok None w' ->
    exists a pa,
      active_player g = Some a /\ heap w' !! a = Some pa /\
      100 <= score pa /\
      last (stdout w') = Some (wins_line pa) /\
      forall r p, In r (players g) -> r <> a -> heap w' !! r = Some p ->
                  score p < 100.
Proof.
  intros fuel g w w' Hwf Hidx Hnw H.
  destruct (start_body_inv _ _ _ _ _ Hwf Hidx H)
    as (a & pa & w1 & b & Hact & Hpa & Hturn & Hwf1 & Hcheck & Hb).
  destruct b; [clear Hb|discriminate].
  assert (Hrun : run_result (play_turn fuel g a w) = Some w1)
    by (rewrite Hturn; reflexivity).
  destruct (play_turn_objects _ _ _ _ _ _ Hpa Hrun) as (Hother & _ & _).
  destruct (check_winner_loop_frame _ _ _ _ Hcheck) as (_ & Hh).
  assert (Hrest : forall r p, In r (players g) -> r <> a ->
                              heap w1 !! r = Some p -> score p < 100).
  { intros r p Hin Hne Hr. rewrite (Hother _ Hne) in Hr. exact (Hnw r p Hin Hr). }
  destruct Hwf1 as (r1 & r2 & q1 & q2 & Hpl & Hne & H1 & H2).
  rewrite (check_winner_two _ _ _ _ _ _ Hpl H1 H2) in Hcheck.
  assert (Ha : a = r1 \/ a = r2).
  { apply active_in in Hact. rewrite Hpl in Hact.
    destruct Hact as [<-|[<-|[]]]; auto. }
  exists a.
  destruct (Z.geb_spec (score q1) 100) as [Hs1|Hs1].
  - injection Hcheck as <-. wsimpl. rewrite last_snoc.
    destruct Ha as [-> | ->].
    + exists q1. repeat split; auto; lia.
    + assert (score q1 < 100); [|lia].
      apply (Hrest r1 q1); [rewrite Hpl; simpl; auto|exact Hne|exact H1].
  - destruct (Z.geb_spec (score q2) 100) as [Hs2|Hs2]; [|discriminate].
    injection Hcheck as <-. wsimpl. rewrite last_snoc.
    destruct Ha as [-> | ->].
    + assert (score q2 < 100); [|lia].
      apply (Hrest r2 q2); [rewrite Hpl; simpl; auto|congruence|exact H2].
    + exists q2. repeat split; auto; lia.
Qed.

(** ** Exceptions *)

Lemma some_human_back g w w' :
  wf_game g w -> same_players g w w' -> some_human g w' -> some_human g w.
Proof.
  intros Hwf Hsame (r & p' & Hin & Hr' & Hcls).
  destruct (wf_lookup _ _ _ Hwf Hin) as (p & Hr).
  destruct (Hsame r p Hin Hr) as (q & Hq & _ & Hc).
  assert (q = p') by congruence. subst q.
  exists r, p. split; [exact Hin|]. split; [exact Hr|].
  unfold isinstance_ComputerPlayer in *. rewrite <- Hc. exact Hcls.
Qed.

Lemma some_human_heap g w w' :
  heap w' = heap w -> some_human g w' -> some_human g w.
Proof. intros Hh (r & p & H). exists r, p. rewrite <- Hh. exact H. Qed.

Lemma body_lines_read g player t w p r w' :
  heap w !! player = Some p ->
  play_turn_body g player t w = Ok r w' -> lines_read w w'.
Proof.
  intros Hp H. pose proof (body_stdin _ _ _ _ _ _ _ Hp H) as Hin.
  destruct (isinstance_ComputerPlayer p); [apply lines_read_refl, Hin|].
  destruct (_ =? 1); [apply lines_read_refl, Hin|].
  destruct Hin as (line & Hin). exists [line]. exact Hin.
Qed.

Lemma turn_steps_lines_read g player n t w t' w' p :
  heap w !! player = Some p ->
  turn_steps g player n t w t' w' -> lines_read w w'.
Proof.
  intros Hp H. induction H as [t w|n t w t1 w1 t2 w2 H IH Hbody].
  - apply lines_read_refl. reflexivity.
  - destruct (turn_steps_inv _ _ _ _ _ _ _ _ Hp H) as (_ & Hh & _).
    assert (Hp1 : heap w1 !! player = Some p) by (rewrite Hh; exact Hp).
    exact (lines_read_trans _ _ _ (IH Hp)
             (body_lines_read _ _ _ _ _ _ _ Hp1 Hbody)).
Qed.

Lemma play_turn_lines_read fuel g player w p w' :
  heap w !! player = Some p ->
  play_turn fuel g player w = Ok tt w' -> lines_read w w'.
Proof.
  intros Hp H.
  destruct (play_turn_inv _ _ _ _ _ _ Hp H)
    as (n & t1 & w1 & _ & Hmid & Hp1 & Hend); [discriminate|].
  destruct (mid_turn_inv _ _ _ _ _ _ _ Hp Hmid) as (Hsteps & _).
  assert (Hpe : heap (turn_entry p w) !! player = Some p) by exact Hp.
  pose proof (turn_steps_lines_read _ _ _ _ _ _ _ _ Hpe Hsteps) as H1.
  pose proof (body_lines_read _ _ _ _ _ _ _ Hp1 Hend) as H2.
  destruct (lines_read_trans _ _ _ H1 H2) as (ls & Hls).
  exists ls. exact Hls.
Qed.

Lemma start_body_lines_read fuel g w r w' :
  wf_game g w ->
  current_player_index g = 0 \/ current_player_index g = 1 ->
  start_body fuel g w = Ok r w' -> lines_read w w'.
Proof.
  intros Hwf Hidx H.
  destruct (start_body_inv _ _ _ _ _ Hwf Hidx H)
    as (a & pa & w1 & b & _ & Hpa & Hturn & _ & Hcheck & _).
  destruct (check_winner_loop_io _ _ _ _ Hcheck) as (_ & Hin).
  destruct (play_turn_lines_read _ _ _ _ _ _ Hpa Hturn) as (ls & Hls).
  exists ls. rewrite Hin. exact Hls.
Qed.

(** A pass of [Game.start] raises only what the turn raises. *)
Lemma start_body_raise fuel g w e w' :
  wf_game g w ->
  current_player_index g = 0 \/ current_player_index g = 1 ->
  start_body fuel g w = Raise e w' ->
  input_raised e w w' /\ some_human g w.
Proof.
  intros Hwf Hidx H.
  destruct (wf_active _ _ Hwf Hidx) as (a & pa & Hact & Hpa & Hget).
  unfold start_body in H. unfold bind at 1 in H. rewrite Hget in H.
  unfold bind at 1 in H.
  destruct (play_turn fuel g a w) as [[] w1|e1 w1|] eqn:Hturn; try discriminate.
  - assert (Hwf1 : wf_game g w1).
    { eapply play_turn_objects; eauto. rewrite Hturn. reflexivity. }
    destruct (check_winner_spec _ _ Hwf1) as (b & w2 & Hcheck & _).
    unfold bind at 1 in H. rewrite Hcheck in H. destruct b; discriminate.
  - injection H as <- <-.
    destruct (play_turn_raise _ _ _ _ _ _ _ Hpa Hturn) as (Hcls & _).
    split; [exact (play_turn_input_raised _ _ _ _ _ _ _ Hpa Hturn)|].
    exists a, pa. auto using active_in.
Qed.

Lemma start_loop_raise fuel : forall g w e w',
  wf_game g w ->
  current_player_index g = 0 \/ current_player_index g = 1 ->
  start_loop fuel g w = Raise e w' ->
  input_raised e w w' /\ some_human g w.
Proof.
  induction fuel as [|fuel IH]; intros g w e w' Hwf Hidx H; [discriminate|].
  cbn [start_loop] in H. unfold bind at 1 in H.
  destruct (start_body fuel g w) as [[g1|] w1|e1 w1|] eqn:Hbody;
    try discriminate.
  - destruct (start_body_answer _ _ _ _ _ Hwf Hidx Hbody)
      as (Hwf1 & [(Hr & _)|(Hr & _)]); [discriminate|].
    injection Hr as ->.
    destruct (start_body_pass _ _ _ _ _ Hwf Hidx Hbody) as (Hsame & _).
    destruct (IH (switch_turn g) w1 e w'
                (wf_game_players g w1 (switch_turn g) eq_refl Hwf1)
                ltac:(simpl; lia) H) as (Hin & Hhuman).
    split; [|exact (some_human_back g _ _ Hwf Hsame Hhuman)].
    exact (lines_read_raised _ _ _ _
             (start_body_lines_read _ _ _ _ _ Hwf Hidx Hbody) Hin).
  - injection H as <- <-. exact (start_body_raise _ _ _ _ _ Hwf Hidx Hbody).
Qed.

(** A pass of the timed loop before the minute is a pass of the plain
    loop after one reading of the clock. *)
Lemma timed_body_plain fuel tg w :
  time_is_up (clock w (clock_pos w)) (start_time tg) = false ->
  timed_start_body fuel tg w =
    match start_body fuel (base tg) (set_clock_pos (S (clock_pos w)) w) with
    | Ok r w' =>
        Ok (option_map (fun g => mkTimed g (start_time tg)) r) w'
    | Raise e w' => Raise e w'
    | OutOfFuel => OutOfFuel
    end.
Proof.
  intros Hup. unfold timed_start_body, start_body, bind, time_time.
  rewrite Hup.
  destruct (getitem _ _ _) as [a wa|e wa|]; try reflexivity.
  destruct (play_turn fuel (base tg) a wa) as [[] w1|e w1|]; try reflexivity.
  destruct (check_winner (base tg) w1) as [[] w2|e w2|]; reflexivity.
Qed.

Lemma timed_loop_raise fuel : forall tg w e w',
  wf_game (base tg) w ->
  current_player_index (base tg) = 0 \/ current_player_index (base tg) = 1 ->
  timed_start_loop fuel tg w = Raise e w' ->
  input_raised e w w' /\ some_human (base tg) w.
Proof.
  induction fuel as [|fuel IH]; intros tg w e w' Hwf Hidx H; [discriminate|].
  cbn [timed_start_loop] in H. unfold bind at 1 in H.
  destruct (time_is_up (clock w (clock_pos w)) (start_time tg)) eqn:Hup.
  - unfold timed_start_body, bind in H. unfold time_time in H.
    rewrite Hup in H.
    destruct Hwf as (r1 & r2 & p1 & p2 & Hpl & _ & H1 & H2).
    rewrite (declare_winner_two tg (set_clock_pos (S (clock_pos w)) w)
               r1 r2 p1 p2 Hpl H1 H2) in H.
    discriminate.
  - rewrite (timed_body_plain _ _ _ Hup) in H.
    set (w0 := set_clock_pos (S (clock_pos w)) w) in *.
    assert (Hwf0 : wf_game (base tg) w0) by exact (wf_game_heap _ _ w0 eq_refl Hwf).
    destruct (start_body fuel (base tg) w0) as [[g1|] w1|e1 w1|] eqn:Hbody;
      try discriminate.
    + destruct (start_body_answer _ _ _ _ _ Hwf0 Hidx Hbody)
        as (Hwf1 & [(Hr & _)|(Hr & _)]); [discriminate|].
      injection Hr as ->.
      destruct (start_body_pass _ _ _ _ _ Hwf0 Hidx Hbody) as (Hsame & _).
      destruct (IH (mkTimed (switch_turn (base tg)) (start_time tg)) w1 e w'
                  (wf_game_players (base tg) w1 (switch_turn (base tg))
                     eq_refl Hwf1)
                  ltac:(simpl; lia) H) as (Hin & Hhuman).
      split.
      * apply (input_raised_stdin e w0 w w' w' eq_refl eq_refl).
        exact (lines_read_raised _ _ _ _
                 (start_body_lines_read _ _ _ _ _ Hwf0 Hidx Hbody) Hin).
      * apply (some_human_heap _ w w0 eq_refl).
        exact (some_human_back (base tg) _ _ Hwf0 Hsame Hhuman).
    + injection H as <- <-.
      destruct (start_body_raise _ _ _ _ _ Hwf0 Hidx Hbody) as (He & Hhuman).
      split; [exact (input_raised_stdin _ w0 w _ _ eq_refl eq_refl He)|].
      exact (some_human_heap _ w w0 eq_refl Hhuman).
Qed.


(** ** The timed loop before the minute *)

Lemma timed_loop_agrees fuel : forall tg w w2,
  weq w w2 ->
  never_up (start_time tg) w ->
  timed_agrees (timed_start_loop fuel tg w) (start_loop fuel (base tg) w2).
Proof.
  induction fuel as [|fuel IH]; intros tg w w2 Hweq Hnever; [exact I|].
  cbn [timed_start_loop start_loop]. unfold bind.
  assert (Hup : time_is_up (clock w (clock_pos w)) (start_time tg) = false)
    by (apply Hnever; lia).
  pose proof (timed_body_clock fuel tg w) as Hclock.
  rewrite (timed_body_plain _ _ _ Hup) in *.
  assert (Hweq0 : weq (set_clock_pos (S (clock_pos w)) w) w2) by exact Hweq.
  pose proof (cf_start_body fuel (base tg) _ _ Hweq0) as Hreq.
  destruct (start_body fuel (base tg) (set_clock_pos (S (clock_pos w)) w))
    as [r1 w1|e1 w1|];
    destruct (start_body fuel (base tg) w2) as [r2 w2'|e2 w2'|];
    simpl in Hreq; try contradiction; try exact Hreq; try exact I.
  destruct Hreq as (<- & Hweq1).
  destruct r1 as [g1|]; simpl.
  - apply (IH (mkTimed g1 (start_time tg))); [exact Hweq1|].
    destruct (Hclock _ _ eq_refl) as (Hc & Hp).
    intros i Hi. simpl. rewrite Hc. apply Hnever. lia.
  - split; [reflexivity|exact Hweq1].
Qed.

(** X8: as long as the clock stays short of the minute, the loop of the
    timed game does what the loop of the plain game does: it ends the same
    way, on the same game, with the same store, output, input and rolls;
    a pass before the minute is a pass of the plain loop after one reading
    of the clock. *)
Theorem timed_loop_is_plain_loop_before_deadline :
  forall fuel tg w,
    never_up (start_time tg) w ->
    timed_agrees (timed_start_loop fuel tg w) (start_loop fuel (base tg) w) /\
    timed_start_body fuel tg w =
      match start_body fuel (base tg) (set_clock_pos (S (clock_pos w)) w) with
      | Ok r w' => Ok (option_map (fun g => mkTimed g (start_time tg)) r) w'
      | Raise e w' => Raise e w'
      | OutOfFuel => OutOfFuel
      end.
Proof.
  intros fuel tg w Hnever. split.
  - apply timed_loop_agrees; [reflexivity|exact Hnever].
  - apply timed_body_plain, Hnever. lia.
Qed.

(** ** The script's errors *)

Lemma Game_init_lookup t1 t2 w :
  valid_type t1 -> valid_type t2 ->
  exists g w',
    Game_init t1 t2 w = Ok g w' /\
    players g = [length (heap w); S (length (heap w))] /\
    heap w' !! length (heap w) = Some (made_player t1 "Player 1") /\
    heap w' !! S (length (heap w)) = Some (made_player t2 "Player 2").
Proof.
  intros Hv1 Hv2. eexists _, _.
  split; [apply (Game_init_valid _ _ _ Hv1 Hv2)|].
  split; [reflexivity|]. wsimpl.
  split; [rewrite lookup_app_r by lia; rewrite Nat.sub_diag; reflexivity|].
  rewrite lookup_app_r by lia.
  replace (S (length (heap w)) - length (heap w))%nat with 1%nat by lia.
  reflexivity.
Qed.

Lemma in_choices_eq s : in_choices s = true -> s = "human" \/ s = "computer".
Proof.
  unfold in_choices. intros H. apply orb_true_iff in H as [H|H];
    apply pystr_eqb_eq in H; auto.
Qed.

Lemma built_human p1 p2 w g w' :
  in_choices p1 = true -> in_choices p2 = true ->
  Game_init p1 p2 w = Ok g w' ->
  some_human g w' -> p1 = "human" \/ p2 = "human".
Proof.
  intros Hc1 Hc2 Hinit (r & p & Hin & Hr & Hcls).
  destruct (Game_init_lookup p1 p2 w)
    as (g0 & w0 & Hinit0 & Hpl & H1 & H2); auto using in_choices_valid.
  rewrite Hinit in Hinit0. injection Hinit0 as <- <-.
  rewrite Hpl in Hin.
  destruct (in_choices_eq _ Hc1) as [-> | ->]; [auto|].
  destruct (in_choices_eq _ Hc2) as [-> | ->]; [auto|].
  destruct Hin as [<-|[<-|[]]];
    [rewrite H1 in Hr|rewrite H2 in Hr]; injection Hr as <-; discriminate Hcls.
Qed.

Lemma Game_init_stdin t1 t2 w g w' :
  Game_init t1 t2 w = Ok g w' -> stdin w' = stdin w.
Proof.
  intros H.
  destruct (valid_type_dec t1) as [Hv1|Hv1];
    [destruct (valid_type_dec t2) as [Hv2|Hv2]|];
    try (destruct (Game_init_invalid t1 t2 w) as (w2 & Hr & _);
         [tauto|congruence]).
  rewrite (Game_init_valid _ _ _ Hv1 Hv2) in H. injection H as _ <-.
  reflexivity.
Qed.


(** * Further properties of players, input lines and construction *)

(** X10: on a player object, adding [a] and then [b] to the score is
    adding [a + b]; resetting the score after an addition is resetting it;
    a reset leaves score 0, the name and the class, and touches no other
    object. *)
Theorem score_updates_compose :
  forall self a b w p,
    heap w !! self = Some p ->
    (add_to_score self a ;;; add_to_score self b) w
    = add_to_score self (a + b) w /\
    (add_to_score self a ;;; reset_score self) w = reset_score self w /\
    exists w',
      reset_score self w = Ok tt w' /\
      heap w' !! self = Some (with_score p 0) /\
      (forall r, r <> self -> heap w' !! r = heap w !! r) /\
      length (heap w') = length (heap w).
Proof.
  intros self a b w p Hp.
  assert (Hlt : (self < length (heap w))%nat) by (eapply lookup_lt_Some, Hp).
  unfold add_to_score, reset_score, bind, get_object, put_object.
  rewrite Hp. wsimpl.
  rewrite (list_lookup_insert_eq _ _ _ Hlt). simpl.
  rewrite !list_insert_insert_eq, Z.add_assoc.
  split; [reflexivity|]. split; [reflexivity|].
  eexists. split; [reflexivity|]. wsimpl.
  split; [apply list_lookup_insert_eq, Hlt|].
  split; [|apply length_insert].
  intros r Hne. apply list_lookup_insert_ne. congruence.
Qed.

Lemma isspace_range c : py_isspace c = true -> (c <= 32 \/ 133 <= c)%N.
Proof.
  unfold py_isspace.
  rewrite !orb_true_iff, !andb_true_iff, !N.leb_le, !N.eqb_eq. lia.
Qed.

(** No capital of ASCII is whitespace, nor its small letter. *)
Lemma isspace_lower c : py_isspace (ascii_lower c) = py_isspace c.
Proof.
  unfold ascii_lower. destruct (_ && _)%N eqn:E; [|reflexivity].
  apply andb_true_iff in E as [E1 E2]. apply N.leb_le in E1, E2.
  destruct (py_isspace (c + 32)) eqn:H1; destruct (py_isspace c) eqn:H2;
    auto; [apply isspace_range in H1|apply isspace_range in H2]; lia.
Qed.

Lemma lstrip_lower s :
  lstrip (map ascii_lower s) = map ascii_lower (lstrip s).
Proof.
  induction s as [|c s IH]; [reflexivity|]. simpl.
  rewrite isspace_lower. destruct (py_isspace c); [exact IH|reflexivity].
Qed.

Lemma rstrip_lower s :
  rstrip (map ascii_lower s) = map ascii_lower (rstrip s).
Proof.
  induction s as [|c s IH]; [reflexivity|]. simpl. rewrite IH.
  destruct (rstrip s) as [|d u]; simpl; [|reflexivity].
  rewrite isspace_lower. destruct (py_isspace c); reflexivity.
Qed.

Lemma is_ascii_lstrip s : is_ascii s = true -> is_ascii (lstrip s) = true.
Proof.
  unfold is_ascii. induction s as [|c s IH]; [reflexivity|]. simpl.
  intros H. destruct (py_isspace c); [|exact H].
  apply andb_true_iff in H as [_ H]. auto.
Qed.

Lemma is_ascii_rstrip s : is_ascii s = true -> is_ascii (rstrip s) = true.
Proof.
  unfold is_ascii. induction s as [|c s IH]; [reflexivity|]. simpl.
  intros H. apply andb_true_iff in H as [Hc H]. specialize (IH H).
  destruct (rstrip s) as [|d u].
  - destruct (py_isspace c); simpl; [reflexivity|]. rewrite Hc. reflexivity.
  - change (forallb (fun c => (c <? 128)%N) (c :: d :: u))
      with ((c <? 128)%N && forallb (fun c => (c <? 128)%N) (d :: u)).
    rewrite Hc, IH. reflexivity.
Qed.

(** On a line of ASCII the case may as well be lowered first. *)
Lemma human_decision_ascii s :
  is_ascii s = true -> human_decision s = strip (lower s).
Proof.
  intros H. unfold human_decision, lower, strip.
  rewrite H, (is_ascii_rstrip _ (is_ascii_lstrip _ H)).
  rewrite lstrip_lower, rstrip_lower. reflexivity.
Qed.

Lemma lstrip_all_space r : all_space r = true -> lstrip r = [].
Proof.
  unfold all_space. induction r as [|c r IH]; intros Hr; [reflexivity|].
  simpl in Hr. apply andb_true_iff in Hr as [Hc Hr]. simpl. rewrite Hc. auto.
Qed.

Lemma rstrip_app s r :
  all_space r = true -> rstrip (s ++ r)%list = rstrip s.
Proof.
  intros Hr. induction s as [|c s IH].
  - apply rstrip_all_space, Hr.
  - simpl. rewrite IH. reflexivity.
Qed.

Lemma strip_app_r s r : all_space r = true -> strip (s ++ r)%list = strip s.
Proof.
  intros Hr. unfold strip. induction s as [|c s IH].
  - simpl. rewrite (lstrip_all_space _ Hr). reflexivity.
  - simpl. destruct (py_isspace c); [exact IH|].
    apply (rstrip_app (c :: s) r Hr).
Qed.


(** X12: building a game leaves every object already in the store as it
    is and reads, prints and times nothing, but it seeds the one generator
    of the process again: the next roll of any die, also of a game built
    before, is the first face of the sequence of seed 0. *)
Theorem building_a_game_reseeds :
  forall t1 t2 w g w',
    Game_init t1 t2 w = Ok g w' ->
    (forall r p, heap w !! r = Some p -> heap w' !! r = Some p) /\
    (forall g0, wf_game g0 w -> wf_game g0 w') /\
    stdin w' = stdin w /\ stdout w' = stdout w /\
    clock_pos w' = clock_pos w /\
    forall d : Die, exists w'', Die_roll d w' = Ok (seeded w 0 0%nat) w''.
Proof.
  intros t1 t2 w g w' H.
  destruct (valid_type_dec t1) as [Hv1|Hv1];
    [destruct (valid_type_dec t2) as [Hv2|Hv2]|].
  - rewrite (Game_init_valid _ _ _ Hv1 Hv2) in H. injection H as <- <-. wsimpl.
    assert (Hkeep : forall r p, heap w !! r = Some p ->
              (heap w ++ [made_player t1 "Player 1";
                          made_player t2 "Player 2"])%list !! r = Some p).
    { intros r p Hr. rewrite lookup_app_l by (eapply lookup_lt_Some, Hr).
      exact Hr. }
    split; [exact Hkeep|]. split.
    + intros g0 (r1 & r2 & p1 & p2 & Hpl & Hne & H1 & H2).
      exists r1, r2, p1, p2. wsimpl. auto.
    + repeat split. intros d. eexists. reflexivity.
  - destruct (Game_init_invalid t1 t2 w) as (w2 & Hr & _); [tauto|]. congruence.
  - destruct (Game_init_invalid t1 t2 w) as (w2 & Hr & _); [tauto|]. congruence.
Qed.

(** X13: the minute of the timed game runs from its construction: when
    the loop is first entered a minute or more after the game was built,
    the game is over at once, a tie at 0 to 0, and no die is rolled. *)
Theorem timed_game_started_late_is_tie :
  forall fuel t1 t2 w tg w1,
    TimedGameProxy_init t1 t2 w = Ok tg w1 ->
    (60 <= clock w (S (clock_pos w)) - clock w (clock_pos w))%Q ->
    exists w2,
      TimedGameProxy_start (S fuel) tg w1 = Ok tg w2 /\
      stdout w2 = (stdout w ++ [timed_welcome_line; timeup_tie_line])%list /\
      heap w2 = heap w1 /\ rng_pos w2 = 0%nat /\ stdin w2 = stdin w.
Proof.
  intros fuel t1 t2 w tg w1 H Hlate.
  unfold TimedGameProxy_init in H. unfold bind at 1 in H.
  destruct (Game_init t1 t2 w) as [g wg|e wg|] eqn:Hinit; try discriminate.
  destruct (valid_type_dec t1) as [Hv1|Hv1];
    [destruct (valid_type_dec t2) as [Hv2|Hv2]|];
    try (destruct (Game_init_invalid t1 t2 w) as (w2 & Hr & _);
         [tauto|congruence]).
  destruct (Game_init_lookup t1 t2 w Hv1 Hv2) as (g0 & w0 & Hinit0 & Hpl & H1 & H2).
  rewrite Hinit in Hinit0. injection Hinit0 as <- <-.
  pose proof Hinit as Hw. rewrite (Game_init_valid _ _ _ Hv1 Hv2) in Hw.
  injection Hw as Hg Hwg.
  unfold bind, time_time, ret in H. injection H as <- <-.
  unfold TimedGameProxy_start, bind, print. cbn [timed_start_loop].
  unfold bind, timed_start_body, bind, time_time. wsimpl.
  assert (Hup : time_is_up (clock wg (S (clock_pos wg)))
                  (clock wg (clock_pos wg)) = true).
  { rewrite <- Hwg. wsimpl. apply Qle_bool_iff, fl_ge_60. exact Hlate. }
  cbn [start_time base]. rewrite Hup.
  erewrite (declare_winner_two (mkTimed g _) _ _ _ _ _ Hpl);
    [| exact H1 | exact H2].
  eexists. split; [reflexivity|]. wsimpl. rewrite <- Hwg. wsimpl.
  rewrite <- app_assoc. repeat split.
Qed.

(** * Termination *)

Lemma human_loop_ends fuel : forall g player t w p,
  heap w !! player = Some p ->
  isinstance_ComputerPlayer p = false ->
  (length (stdin w) < fuel)%nat ->
  play_turn_loop fuel g player t w <> OutOfFuel.
Proof.
  induction fuel as [|fuel IH]; intros g player t w p Hp Hcls Hfuel; [lia|].
  cbn [play_turn_loop]. unfold bind at 1.
  rewrite (body_eq _ _ _ _ _ Hp). cbv zeta. rewrite Hcls.
  destruct (_ =? 1); [discriminate|].
  destruct (stdin w) as [|[line|e] rest] eqn:Hin; try discriminate.
  destruct (pystr_eqb _ "h"); [discriminate|].
  apply (IH g player _ _ p); wsimpl; [exact Hp|exact Hcls|].
  simpl in Hfuel. lia.
Qed.


Lemma computer_turn_returns fuel g player w p :
  heap w !! player = Some p ->
  isinstance_ComputerPlayer p = true ->
  faces_ok w ->
  (13 <= fuel)%nat ->
  exists w', play_turn fuel g player w = Ok tt w'.
Proof.
  intros Hp Hcls Hfaces Hfuel. rewrite (play_turn_eq _ _ _ _ _ Hp).
  destruct (computer_loop_returns fuel g player 0 (turn_entry p w) p)
    as (w' & Hrun & _); auto; try lia.
  exists w'. exact Hrun.
Qed.

(** A pass of a game between computers returns. *)
Lemma computer_pass_returns fuel g w :
  wf_game g w ->
  current_player_index g = 0 \/ current_player_index g = 1 ->
  ~ some_human g w ->
  faces_ok w ->
  (13 <= fuel)%nat ->
  exists r w', start_body fuel g w = Ok r w'.
Proof.
  intros Hwf Hidx Hcomp Hfaces Hfuel.
  destruct (wf_active _ _ Hwf Hidx) as (a & pa & Hact & Hpa & Hget).
  assert (Hcls : isinstance_ComputerPlayer pa = true).
  { destruct (isinstance_ComputerPlayer pa) eqn:Hc; [reflexivity|].
    destruct Hcomp. exists a, pa. auto using active_in. }
  destruct (computer_turn_returns fuel g a w pa Hpa Hcls Hfaces Hfuel)
    as (w1 & Hturn).
  assert (Hwf1 : wf_game g w1).
  { eapply play_turn_objects; eauto. rewrite Hturn. reflexivity. }
  destruct (check_winner_spec _ _ Hwf1) as (b & w2 & Hcheck & _).
  unfold start_body, bind. rewrite Hget, Hturn, Hcheck.
  destruct b; eexists _, _; reflexivity.
Qed.

(** X15: a timed game between two computers ends: if the reading of the
    clock taken [k] passes from now is past the minute, the loop returns,
    by a win or by the clock, within [k + 1] readings. *)
Theorem timed_computer_game_ends :
  forall k fuel tg w,
    wf_game (base tg) w ->
    current_player_index (base tg) = 0 \/
    current_player_index (base tg) = 1 ->
    ~ some_human (base tg) w ->
    faces_ok w ->
    time_is_up (clock w (clock_pos w + k)%nat) (start_time tg) = true ->
    (k + 13 <= fuel)%nat ->
    exists tg' w',
      timed_start_loop fuel tg w = Ok tg' w' /\
      (clock_pos w' <= clock_pos w + S k)%nat.
Proof.
  induction k as [|k IH]; intros fuel tg w Hwf Hidx Hcomp Hfaces Hlate Hfuel;
    (destruct fuel as [|fuel]; [lia|]);
    cbn [timed_start_loop]; unfold bind at 1;
    destruct (time_is_up (clock w (clock_pos w)) (start_time tg)) eqn:Hup.
  1, 3: unfold timed_start_body, bind, time_time; rewrite Hup;
    destruct Hwf as (r1 & r2 & p1 & p2 & Hpl & _ & H1 & H2);
    rewrite (declare_winner_two tg (set_clock_pos (S (clock_pos w)) w)
               r1 r2 p1 p2 Hpl H1 H2);
    eexists _, _; (split; [reflexivity|]); wsimpl; lia.
  - rewrite Nat.add_0_r in Hlate. congruence.
  - rewrite (timed_body_plain _ _ _ Hup).
    set (w0 := set_clock_pos (S (clock_pos w)) w).
    assert (Hwf0 : wf_game (base tg) w0)
      by exact (wf_game_heap _ _ w0 eq_refl Hwf).
    assert (Hcomp0 : ~ some_human (base tg) w0).
    { intros Hh. apply Hcomp. exact (some_human_heap _ w w0 eq_refl Hh). }
    assert (Hfaces0 : faces_ok w0) by exact Hfaces.
    destruct (computer_pass_returns fuel (base tg) w0 Hwf0 Hidx Hcomp0 Hfaces0)
      as (r & w1 & Hbody); [lia|].
    rewrite Hbody.
    destruct (start_body_pass _ _ _ _ _ Hwf0 Hidx Hbody) as (Hsame & Hf & _).
    destruct (start_body_answer _ _ _ _ _ Hwf0 Hidx Hbody)
      as (Hwf1 & [(-> & _)|(-> & _)]).
    + eexists _, _. split; [reflexivity|].
      rewrite (frame_clock_pos _ _ Hf). unfold w0. wsimpl. lia.
    + simpl.
      destruct (IH fuel (mkTimed (switch_turn (base tg)) (start_time tg)) w1)
        as (tg' & w' & Hrun & Hpos).
      * exact (wf_game_players (base tg) w1 (switch_turn (base tg)) eq_refl Hwf1).
      * simpl. lia.
      * intros Hh. apply Hcomp0.
        exact (some_human_back (base tg) _ _ Hwf0 Hsame Hh).
      * intros i. rewrite (frame_rng_seq _ _ Hf). apply Hfaces.
      * rewrite (frame_clock _ _ Hf), (frame_clock_pos _ _ Hf).
        unfold w0. wsimpl. simpl.
        replace (S (clock_pos w + k)) with (clock_pos w + S k)%nat by lia.
        exact Hlate.
      * lia.
      * exists tg', w'. split; [exact Hrun|].
        rewrite (frame_clock_pos _ _ Hf) in Hpos. unfold w0 in Hpos.
        wsimpl. lia.
Qed.

(** On a die that shows nothing but 1 a pass is one roll: the turn is
    lost, nobody scores, and the loop goes round again. *)
Lemma ones_pass g w :
  wf_game g w ->
  current_player_index g = 0 \/ current_player_index g = 1 ->
  no_winner g w ->
  (forall i, rng_seq w i = 1) ->
  exists w2,
    heap w2 = heap w /\ rng_seq w2 = rng_seq w /\
    rng_pos w2 = S (rng_pos w) /\ stdin w2 = stdin w /\
    forall m, start_body (S m) g w = Ok (Some (switch_turn g)) w2.
Proof.
  intros Hwf Hidx Hnw Hones.
  destruct (wf_active _ _ Hwf Hidx) as (a & pa & Hact & Hpa & Hget).
  assert (Hpe : heap (turn_entry pa w) !! a = Some pa) by exact Hpa.
  set (w1 := bust_world pa (turn_entry pa w)).
  assert (Hwf1 : wf_game g w1) by exact (wf_game_heap _ _ w1 eq_refl Hwf).
  assert (Hnw1 : no_winner g w1) by exact (no_winner_heap _ _ w1 eq_refl Hnw).
  destruct (check_winner_spec _ _ Hwf1)
    as (b & w2 & Hcheck & _ & _ & _ & Hnone & Hsame & _).
  assert (b = false) as -> by (apply Hnone, Hnw1).
  rewrite (Hsame eq_refl) in Hcheck.
  exists w1. repeat split. intros m.
  unfold start_body. unfold bind at 1. rewrite Hget. unfold bind at 1.
  rewrite (play_turn_eq _ _ _ _ _ Hpa).
  cbn [play_turn_loop]. unfold bind at 1.
  rewrite (body_bust _ _ _ _ _ Hpe (Hones _)).
  unfold ret at 1. fold w1.
  unfold bind at 1. rewrite Hcheck. reflexivity.
Qed.

(** X16: the plain game has no limit of its own: on a die that shows
    nothing but 1 every turn is lost on its first roll, the players take
    it in turns, nobody scores and nothing is read; the loop of
    [Game.start] stands after any number [n] of passes at such a head, and
    it is still running after any number of steps. *)
Theorem game_of_ones_never_ends :
  forall g w,
    wf_game g w ->
    current_player_index g = 0 \/ current_player_index g = 1 ->
    no_winner g w ->
    (forall i, rng_seq w i = 1) ->
    (forall fuel, start_loop fuel g w = OutOfFuel) /\
    (forall n, exists g' w',
        start_steps n g w g' w' /\
        heap w' = heap w /\ rng_seq w' = rng_seq w /\
        rng_pos w' = (rng_pos w + n)%nat /\ stdin w' = stdin w /\
        current_player_index g'
        = (current_player_index g + Z.of_nat n) mod 2 /\
        forall m, start_loop (n + S m) g w = start_loop (S m) g' w').
Proof.
  intros g w Hwf Hidx Hnw Hones.
  assert (Hheads : forall n, exists g' w',
             start_steps n g w g' w' /\
             heap w' = heap w /\ rng_seq w' = rng_seq w /\
             rng_pos w' = (rng_pos w + n)%nat /\ stdin w' = stdin w /\
             current_player_index g'
             = (current_player_index g + Z.of_nat n) mod 2 /\
             forall m, start_loop (n + S m) g w = start_loop (S m) g' w').
  { induction n as [|n IH].
    - exists g, w. split; [apply start_steps_O|].
      repeat split; try lia.
      rewrite Z.add_0_r. destruct Hidx as [-> | ->]; reflexivity.
    - destruct IH as (g1 & w1 & Hsteps & Hh & Hseq & Hpos & Hin & Hi & Hloop).
      destruct (start_steps_inv _ _ _ _ _ Hwf Hidx Hsteps)
        as (Hwf1 & _ & _ & Hnw1).
      assert (Hidx1 : current_player_index g1 = 0 \/
                      current_player_index g1 = 1).
      { rewrite Hi.
        pose proof (Z.mod_pos_bound (current_player_index g + Z.of_nat n) 2).
        lia. }
      assert (Hones1 : forall i, rng_seq w1 i = 1)
        by (intros i; rewrite Hseq; apply Hones).
      destruct (ones_pass g1 w1 Hwf1 Hidx1 (Hnw1 (or_intror Hnw)) Hones1)
        as (w2 & Hh2 & Hseq2 & Hpos2 & Hin2 & Hbody).
      assert (Hsteps2 : start_steps (S n) g w (switch_turn g1) w2)
        by exact (start_steps_S _ _ _ _ _ _ _ _ Hsteps (Hbody 0%nat)).
      exists (switch_turn g1), w2. split; [exact Hsteps2|].
      split; [congruence|]. split; [congruence|]. split; [lia|].
      split; [congruence|]. split.
      + apply (start_steps_inv _ _ _ _ _ Hwf Hidx Hsteps2).
      + intros m. replace (S n + S m)%nat with (n + S (S m))%nat by lia.
        rewrite Hloop. cbn [start_loop]. unfold bind at 1.
        rewrite (Hbody m). reflexivity. }
  split; [|exact Hheads].
  intros fuel. destruct fuel as [|fuel]; [reflexivity|].
  destruct (Hheads fuel) as (g1 & w1 & Hsteps & _ & _ & _ & _ & Hi & Hloop).
  specialize (Hloop 0%nat).
  replace (fuel + 1)%nat with (S fuel) in Hloop by lia.
  rewrite Hloop.
  destruct (start_steps_inv _ _ _ _ _ Hwf Hidx Hsteps) as (Hwf1 & _).
  assert (Hidx1 : current_player_index g1 = 0 \/ current_player_index g1 = 1).
  { rewrite Hi.
    pose proof (Z.mod_pos_bound (current_player_index g + Z.of_nat fuel) 2).
    lia. }
  destruct (wf_active _ _ Hwf1 Hidx1) as (a & pa & Hact & Hpa & Hget).
  cbn [start_loop]. unfold bind at 1. unfold start_body. unfold bind at 1.
  rewrite Hget. unfold bind at 1. rewrite (play_turn_eq _ _ _ _ _ Hpa).
  reflexivity.
Qed.

End Program.

(** * The properties at work

    The runs below lower strings of ASCII only, for which the case tables
    are not consulted; they are run on [plain_tables]. *)

#[local] Existing Instance plain_tables.

Lemma demo_mid_turn_3_4 :
  mid_turn demo_game 0%nat (demo_world [3; 4; 1] (typed ["r"; "roll"]) 0 0) 2 7
    (set_stdin []
       (set_rng (cycle [3; 4; 1] 0) 2
          (set_stdout
             [String "010" "Player 1's turn!";
              "Player 1 rolled a 3."; "Turn total: 3, Current score: 0"; prompt;
              "Player 1 rolled a 4."; "Turn total: 7, Current score: 0"; prompt]
             (demo_world [3; 4; 1] (typed ["r"; "roll"]) 0 0)))).
Proof.
  eexists. split; [reflexivity|].
  eapply turn_steps_S; [eapply turn_steps_S; [apply turn_steps_O|]|];
    vm_compute; reflexivity.
Defined.

Lemma rolling_one_ends_turn_witness :
  exists w',
    play_turn 3 demo_game 0%nat (demo_world [3; 4; 1] (typed ["r"; "roll"]) 0 0)
    = Ok tt w' /\ scores w' = [0; 0] /\ rng_pos w' = 3%nat.
Proof.
  destruct (rolling_one_ends_turn demo_game 0%nat
              (demo_world [3; 4; 1] (typed ["r"; "roll"]) 0 0)
              (mkPlayer ClsPlayer "Player 1" 0) 2 7 _
              eq_refl demo_mid_turn_3_4 eq_refl 3%nat)
    as (w' & Hrun & Hheap & _ & Hpos & _); [lia|].
  exists w'. unfold scores. rewrite Hheap. auto.
Defined.

(** Without the clock among the things the two runs share, the timed
    game tells them apart: typed the same four lines, a run whose clock stands still is won by the computer with 102
    points, and a run in which the first answer takes over a minute is
    ended by the clock with 6 points to the human. *)
Lemma timed_runs_differ :
  ~ (forall (timed : bool) fuel player1 player2 w1 w2,
        same_inputs w1 w2 ->
        outcome (main fuel player1 player2 timed w1)
        = outcome (main fuel player1 player2 timed w2)).
Proof.
  intros H.
  specialize (H true 100%nat "human" "computer"
                (world0 [6] (typed ["h"; "h"; "h"; "h"]) (fun _ => 0%Q))
                (world0 [6] (typed ["h"; "h"; "h"; "h"]) slow_clock)).
  assert (Hsame : same_inputs
                    (world0 [6] (typed ["h"; "h"; "h"; "h"]) (fun _ => 0%Q))
                    (world0 [6] (typed ["h"; "h"; "h"; "h"]) slow_clock))
    by (repeat split).
  specialize (H Hsame). vm_compute in H. discriminate H.
Qed.

Lemma computer_decide_threshold_witness :
  ComputerPlayer.decide_method 1%nat 20 (demo_world [6] [] 0 85)
  = Ok "h" (demo_world [6] [] 0 85).
Proof.
  exact (proj1 (proj2 (proj2 (computer_decide_threshold 20 85)))
           1%nat (demo_world [6] [] 0 85)
           (mkPlayer ClsComputerPlayer "Player 2" 85) eq_refl).
Defined.


Lemma timed_loop_stops_at_deadline_witness :
  timed_start_loop 1 (mkTimed demo_game 0)
    (at_time 61 (demo_world [6] [] 60 45))
  = Ok (mkTimed demo_game 0)
      (set_stdout [String "010" "Time's up! Player 1 wins with 60 points!"]
         (set_clock_pos 1 (at_time 61 (demo_world [6] [] 60 45)))).
Proof.
  destruct (proj1 (timed_loop_stops_at_deadline 0 (mkTimed demo_game 0)
                     (at_time 61 (demo_world [6] [] 60 45))
                     0%nat 1%nat
                     (mkPlayer ClsPlayer "Player 1" 60)
                     (mkPlayer ClsComputerPlayer "Player 2" 45) 0%Q
                     eq_refl eq_refl eq_refl
                     ltac:(vm_compute; discriminate)
                     ltac:(vm_compute; discriminate)))
    as (line & Hrun & Hfirst & _ & _).
  rewrite Hrun, Hfirst by (simpl; lia). reflexivity.
Defined.

Example timed_tie_at_42 :
  timed_start_loop 1 (mkTimed demo_game 0)
    (at_time 61 (demo_world [6] [] 42 42))
  = Ok (mkTimed demo_game 0)
      (set_stdout [String "010" "Time's up! It's a tie!"]
         (set_clock_pos 1 (at_time 61 (demo_world [6] [] 42 42)))).
Proof. reflexivity. Qed.

Lemma demo_wf faces lines s1 s2 i :
  wf_game (mkGame [0%nat; 1%nat] mkDie i) (demo_world faces lines s1 s2).
Proof.
  eexists 0%nat, 1%nat, _, _. split; [reflexivity|]. split; [lia|].
  split; reflexivity.
Defined.

Lemma winner_declared_at_100_witness :
  exists w',
    start_loop 3 (mkGame [0%nat; 1%nat] mkDie 1) (demo_world [6] [] 0 90)
    = Ok (mkGame [0%nat; 1%nat] mkDie 1) w' /\
    scores w' = [0; 102] /\
    last (stdout w') = Some (String "010" "Player 2 wins with 102 points!").
Proof.
  assert (Hbody : exists w',
             start_body 2 (mkGame [0%nat; 1%nat] mkDie 1)
               (demo_world [6] [] 0 90) = Ok None w' /\
             scores w' = [0; 102] /\
             last (stdout w')
             = Some (String "010" "Player 2 wins with 102 points!")).
  { eexists. split; [vm_compute; reflexivity|]. split; reflexivity. }
  destruct Hbody as (w' & Hbody & Hscores & Hlast).
  exists w'. split; [|split; assumption].
  apply (proj1 (proj2 (winner_declared_at_100
                         (mkGame [0%nat; 1%nat] mkDie 1)
                         (demo_world [6] [] 0 90)
                         (demo_wf _ _ _ _ _) (or_intror eq_refl)))
           2%nat None w' Hbody).
  reflexivity.
Defined.

Lemma active_player_alternates_witness :
  exists g1 w1,
    start_steps 1 demo_game (demo_world [1] [] 0 0) g1 w1 /\
    current_player_index g1 = 1 /\ players g1 = [0%nat; 1%nat] /\
    exists F, forall fuel,
      (F <= fuel)%nat ->
      start_loop (1 + fuel) demo_game (demo_world [1] [] 0 0)
      = start_loop fuel g1 w1.
Proof.
  assert (Hstep : exists g1 w1,
             start_steps 1 demo_game (demo_world [1] [] 0 0) g1 w1).
  { eexists _, _. eapply start_steps_S with (fuel := 1%nat);
      [apply start_steps_O|]. vm_compute. reflexivity. }
  destruct Hstep as (g1 & w1 & Hstep).
  exists g1, w1. split; [exact Hstep|].
  destruct (proj1 (active_player_alternates demo_game (demo_world [1] [] 0 0)
                     (demo_wf _ _ _ _ _) (or_introl eq_refl))
              1%nat g1 w1 Hstep)
    as (Hidx & Hpl & Hloop & _).
  split; [exact Hidx|]. split; [exact Hpl|exact Hloop].
Defined.



Lemma invalid_player_type_rejected_witness :
  (exists w',
      Game_init "robot" "human" (world0 [6] [] (fun _ => 0%Q))
      = Raise (ValueError invalid_player_type) w' /\ stdout w' = []) /\
  (exists g w',
      Game_init "HuMaN" "COMPUTER" (world0 [6] [] (fun _ => 0%Q)) = Ok g w' /\
      map cls (heap w') = [ClsPlayer; ClsComputerPlayer]).
Proof.
  split.
  - destruct (proj1 (invalid_player_type_rejected "robot" "human"
                       (world0 [6] [] (fun _ => 0%Q))))
      as ((w' & Hrun & Hout & _) & _).
    + intros [[H|H] _]; vm_compute in H; discriminate H.
    + exists w'. split; [exact Hrun|exact Hout].
  - destruct (proj2 (invalid_player_type_rejected "HuMaN" "COMPUTER"
                       (world0 [6] [] (fun _ => 0%Q))))
      as (g & w' & r1 & r2 & p1 & p2 & Hrun & _).
    + split; [left|right]; reflexivity.
    + exists g, w'. split; [exact Hrun|].
      vm_compute in Hrun. injection Hrun as _ <-. reflexivity.
Defined.

Lemma seed_zero_runs_agree_witness :
  outcome (main 100 "human" "computer" false
             (world0 [6] (typed ["h"; "h"; "h"; "h"]) (fun _ => 0%Q)))
  = outcome (main 100 "human" "computer" false
               (world0 [6] (typed ["h"; "h"; "h"; "h"]) slow_clock)) /\
  outcome (main 100 "human" "computer" true
             (world0 [6] (typed ["h"; "h"; "h"; "h"]) slow_clock))
  = outcome (main 100 "human" "computer" true
               (mkWorld [] (cycle [6]) (fun _ => 5) 0
                  (map Line (typed ["h"; "h"; "h"; "h"])) [] slow_clock 0)).
Proof.
  split.
  - apply (proj1 (proj2 (proj2 seed_zero_runs_agree))). repeat split.
  - apply (proj2 (proj2 (proj2 seed_zero_runs_agree)));
      [repeat split|reflexivity].
Defined.

Lemma turn_changes_only_active_score_witness :
  exists w',
    run_result (play_turn 5 demo_game 0%nat
                  (demo_world [3; 4; 2] (typed ["r"; "h"]) 0 12)) = Some w' /\
    heap w' !! 1%nat = Some (mkPlayer ClsComputerPlayer "Player 2" 12) /\
    exists p', heap w' !! 0%nat = Some p' /\
               name p' = "Player 1" /\ 0 <= score p'.
Proof.
  assert (Hrun : exists w',
             run_result (play_turn 5 demo_game 0%nat
                           (demo_world [3; 4; 2] (typed ["r"; "h"]) 0 12)) = Some w').
  { eexists. vm_compute. reflexivity. }
  destruct Hrun as (w' & Hrun). exists w'. split; [exact Hrun|].
  destruct (turn_changes_only_active_score 5 demo_game
              (demo_world [3; 4; 2] (typed ["r"; "h"]) 0 12) 0%nat
              (mkPlayer ClsPlayer "Player 1" 0) w'
              (demo_wf _ _ _ _ _) eq_refl)
    as (Hother & (p' & Hp' & Hname & _ & Hscore) & _).
  - intros i. apply (cycle_faces_ok [3; 4; 2]).
    simpl. intros x [<-|[<-|[<-|[]]]]; lia.
  - exact Hrun.
  - split; [rewrite Hother by lia; reflexivity|].
    exists p'. auto.
Defined.

Lemma demo_faces_ok faces lines s1 s2 :
  (forall x, In x faces -> 1 <= x <= 6) ->
  faces_ok (demo_world faces lines s1 s2).
Proof. intros H i. apply (cycle_faces_ok faces H 0 i). Defined.

Lemma six_is_a_face : forall x, In x [6] -> 1 <= x <= 6.
Proof. intros x [<-|[]]. lia. Defined.

Lemma computer_turn_terminates_witness :
  exists w',
    play_turn 13 demo_game 1%nat (demo_world [6] [] 0 0) = Ok tt w' /\
    (rng_pos w' <= 13)%nat /\ stdin w' = [].
Proof.
  destruct (computer_turn_terminates 13 demo_game 1%nat
              (demo_world [6] [] 0 0)
              (mkPlayer ClsComputerPlayer "Player 2" 0)
              eq_refl eq_refl (demo_faces_ok _ _ _ _ six_is_a_face)
              (le_n 13))
    as (w' & Hrun & Hpos & Hin).
  exists w'. split; [exact Hrun|]. split; [simpl in Hpos; lia|exact Hin].
Defined.

Lemma computer_hold_gain_witness :
  exists w',
    play_turn 13 demo_game 1%nat (demo_world [6] [] 0 80) = Ok tt w' /\
    (heap w' = heap (demo_world [6] [] 0 80) \/
     exists gain,
       heap w' = <[1%nat := mkPlayer ClsComputerPlayer "Player 2" (80 + gain)]>
                   (heap (demo_world [6] [] 0 80)) /\
       20 <= gain <= 30).
Proof.
  assert (Hrun : exists w',
             play_turn 13 demo_game 1%nat (demo_world [6] [] 0 80) = Ok tt w').
  { eexists. vm_compute. reflexivity. }
  destruct Hrun as (w' & Hrun). exists w'. split; [exact Hrun|].
  destruct (computer_hold_gain 13 demo_game 1%nat (demo_world [6] [] 0 80)
              (mkPlayer ClsComputerPlayer "Player 2" 80) w'
              eq_refl eq_refl (demo_faces_ok _ _ _ _ six_is_a_face) Hrun)
    as [Hh|(gain & Hh & Hmin & Hmax)]; [left; exact Hh|right].
  exists gain. split; [exact Hh|]. simpl in Hmin. lia.
Defined.


Lemma turn_reads_one_line_per_roll_witness :
  exists w' k,
    play_turn 5 demo_game 0%nat
      (demo_world [3; 4; 2] (typed ["r"; "h"; "later"]) 0 0) = Ok tt w' /\
    rng_pos w' = S k /\
    stdin w' = drop (S k) (map Line (typed ["r"; "h"; "later"])).
Proof.
  assert (Hrun : exists w',
             play_turn 5 demo_game 0%nat
               (demo_world [3; 4; 2] (typed ["r"; "h"; "later"]) 0 0) = Ok tt w' /\
             rng_pos w' = 2%nat).
  { eexists. split; vm_compute; reflexivity. }
  destruct Hrun as (w' & Hrun & Htwo).
  destruct (turn_reads_one_line_per_roll 5 demo_game 0%nat
              (demo_world [3; 4; 2] (typed ["r"; "h"; "later"]) 0 0)
              (mkPlayer ClsPlayer "Player 1" 0) w' eq_refl Hrun)
    as (k & Hpos & Hin).
  simpl in Hpos. assert (k = 1%nat) by lia. subst k.
  exists w', 1%nat. split; [exact Hrun|]. split; [exact Hpos|].
  exact (proj1 Hin).
Defined.

Lemma demo_one_turn :
  exists g1 w1, start_steps 1 demo_game (demo_world [1] [] 0 0) g1 w1.
Proof.
  eexists _, _. eapply start_steps_S with (fuel := 1%nat);
    [apply start_steps_O|]. vm_compute. reflexivity.
Defined.

Lemma game_keeps_players_scores_grow_witness :
  exists g1 w1,
    start_steps 1 demo_game (demo_world [1] [] 0 0) g1 w1 /\
    (1 <= rng_pos w1)%nat /\ length (heap w1) = 2%nat.
Proof.
  destruct demo_one_turn as (g1 & w1 & Hstep).
  exists g1, w1. split; [exact Hstep|].
  destruct (game_keeps_players_scores_grow 1 demo_game
              (demo_world [1] [] 0 0) g1 w1
              (demo_wf _ _ _ _ _) (or_introl eq_refl) Hstep)
    as (_ & _ & _ & Hpos & Hlen).
  split; [exact Hpos|exact Hlen].
Defined.

Lemma winner_is_player_on_turn_witness :
  exists w' pa,
    start_body 2 (mkGame [0%nat; 1%nat] mkDie 1) (demo_world [6] [] 0 90)
    = Ok None w' /\
    heap w' !! 1%nat = Some pa /\ 100 <= score pa /\
    last (stdout w') = Some (wins_line pa).
Proof.
  assert (Hbody : exists w',
             start_body 2 (mkGame [0%nat; 1%nat] mkDie 1)
               (demo_world [6] [] 0 90) = Ok None w').
  { eexists. vm_compute. reflexivity. }
  destruct Hbody as (w' & Hbody).
  destruct (winner_is_player_on_turn 2 (mkGame [0%nat; 1%nat] mkDie 1)
              (demo_world [6] [] 0 90) w'
              (demo_wf _ _ _ _ _) (or_intror eq_refl))
    as (a & pa & Hact & Hpa & Hs & Hlast & _).
  - intros r p [<-|[<-|[]]]; intros [= <-]; simpl; lia.
  - exact Hbody.
  - injection Hact as <-. exists w', pa. auto.
Defined.


Lemma timed_loop_is_plain_loop_before_deadline_witness :
  timed_agrees
    (timed_start_loop 40 (mkTimed (mkGame [0%nat; 1%nat] mkDie 1) 0)
       (demo_world [6] [] 0 90))
    (start_loop 40 (mkGame [0%nat; 1%nat] mkDie 1) (demo_world [6] [] 0 90)).
Proof.
  apply (proj1 (timed_loop_is_plain_loop_before_deadline 40
                  (mkTimed (mkGame [0%nat; 1%nat] mkDie 1) 0)
                  (demo_world [6] [] 0 90)
                  (fun i _ => eq_refl))).
Defined.


Lemma score_updates_compose_witness :
  (add_to_score 0%nat 7 ;;; add_to_score 0%nat 5) (demo_world [6] [] 10 0)
  = add_to_score 0%nat 12 (demo_world [6] [] 10 0).
Proof.
  exact (proj1 (score_updates_compose 0%nat 7 5 (demo_world [6] [] 10 0)
                  (mkPlayer ClsPlayer "Player 1" 10) eq_refl)).
Defined.


Lemma building_a_game_reseeds_witness :
  exists g w',
    Game_init "computer" "computer"
      (set_rng (cycle [2; 5] 0) 7 (demo_world [2; 5] [] 30 40)) = Ok g w' /\
    heap w' !! 0%nat = Some (mkPlayer ClsPlayer "Player 1" 30) /\
    exists w'', Die_roll mkDie w' = Ok 2 w''.
Proof.
  assert (Hrun : exists g w',
             Game_init "computer" "computer"
               (set_rng (cycle [2; 5] 0) 7 (demo_world [2; 5] [] 30 40))
             = Ok g w').
  { eexists _, _. vm_compute. reflexivity. }
  destruct Hrun as (g & w' & Hrun). exists g, w'. split; [exact Hrun|].
  destruct (building_a_game_reseeds _ _ _ _ _ Hrun) as (Hkeep & _ & _ & _ & _ & Hroll).
  split; [apply Hkeep; reflexivity|]. exact (Hroll mkDie).
Defined.

Lemma timed_game_started_late_is_tie_witness :
  exists tg w1 w2,
    TimedGameProxy_init "human" "computer"
      (world0 [6] [] (fun i => if (i =? 0)%nat then 5%Q else 70%Q)) = Ok tg w1 /\
    TimedGameProxy_start 1 tg w1 = Ok tg w2 /\
    stdout w2 = [timed_welcome_line; timeup_tie_line] /\ rng_pos w2 = 0%nat.
Proof.
  assert (Hinit : exists tg w1,
             TimedGameProxy_init "human" "computer"
               (world0 [6] [] (fun i => if (i =? 0)%nat then 5%Q else 70%Q))
             = Ok tg w1).
  { eexists _, _. vm_compute. reflexivity. }
  destruct Hinit as (tg & w1 & Hinit).
  destruct (timed_game_started_late_is_tie 0 _ _ _ tg w1 Hinit
              ltac:(vm_compute; discriminate))
    as (w2 & Hrun & Hout & _ & Hpos & _).
  exists tg, w1, w2. auto.
Defined.


Lemma timed_computer_game_ends_witness :
  exists tg' w',
    timed_start_loop 15 (mkTimed demo_game 0) (robots_world [6] slow_clock)
    = Ok tg' w' /\ (clock_pos w' <= 3)%nat.
Proof.
  apply (timed_computer_game_ends 2 15 (mkTimed demo_game 0)
           (robots_world [6] slow_clock)).
  - eexists 0%nat, 1%nat, _, _. split; [reflexivity|]. split; [lia|].
    split; reflexivity.
  - left. reflexivity.
  - intros (r & p & [<-|[<-|[]]] & Hr & Hcls);
      injection Hr as <-; discriminate Hcls.
  - intros i. apply (cycle_faces_ok [6] six_is_a_face 0 i).
  - reflexivity.
  - simpl. lia.
Defined.

Lemma game_of_ones_never_ends_witness :
  start_loop 7 demo_game (demo_world [1] [] 0 0) = OutOfFuel /\
  exists g' w',
    start_steps 3 demo_game (demo_world [1] [] 0 0) g' w' /\
    scores w' = [0; 0] /\ rng_pos w' = 3%nat /\
    current_player_index g' = 1 /\
    start_loop 7 demo_game (demo_world [1] [] 0 0) = start_loop 4 g' w'.
Proof.
  destruct (game_of_ones_never_ends demo_game (demo_world [1] [] 0 0)
              (demo_wf _ _ _ _ _) (or_introl eq_refl))
    as (Hout & Hheads).
  - intros r p [<-|[<-|[]]]; intros [= <-]; simpl; lia.
  - intros i. change (cycle [1] 0 i = 1). unfold cycle.
    change (length [1]) with 1%nat. rewrite Nat.mod_1_r. reflexivity.
  - split; [exact (Hout 7%nat)|].
    destruct (Hheads 3%nat) as (g' & w' & Hsteps & Hh & _ & Hpos & _ & Hi & Hloop).
    exists g', w'. split; [exact Hsteps|].
    split; [unfold scores; rewrite Hh; reflexivity|].
    split; [exact Hpos|]. split; [exact Hi|exact (Hloop 3%nat)].
Defined.
